(** * The pooled-connection core of [src/db.js]

    A shallow embedding of the data-access layer of koa-skeleton: the plain
    [query] helper with its projections [queryOne] and [queryMany], the
    connection governor [withClient] with its deadlock retry and its
    discard path, and [withTransaction] on top of it.

    The generators of the source run under [co]: every [yield] waits for
    the yielded promise or generator and either resumes with its value or
    throws its rejection into the generator.  A generator is therefore
    embedded as a function that threads the state it can touch and returns
    either a value or a thrown error. *)

From stdpp Require Import gmap strings list fin_maps.

Local Open Scope string_scope.
Local Open Scope list_scope.
Local Open Scope nat_scope.

(** ** JavaScript values and error objects *)

(** Objects live in a heap and are passed by reference: the error that
    [withTransaction] flags and [withClient] annotates is one shared
    object, and the caller that catches it sees both mutations. *)
Definition loc := positive.

Inductive value :=
| VUndefined
| VNull
| VBool (b : bool)
| VNum (n : Z)
| VStr (s : string)
| VRef (l : loc).

(** The truthiness test of [if (err.removeFromPool)]. *)
Definition truthy (v : value) : bool :=
  match v with
  | VUndefined | VNull => false
  | VBool b => b
  | VNum n => negb (n =? 0)%Z
  | VStr s => negb (String.eqb s "")
  | VRef _ => true
  end.

(** The [===] of [err.code === '40P01']. *)
Definition strict_equal (a b : value) : bool :=
  match a, b with
  | VUndefined, VUndefined => true
  | VNull, VNull => true
  | VBool x, VBool y => Bool.eqb x y
  | VNum x, VNum y => (x =? y)%Z
  | VStr x, VStr y => String.eqb x y
  | VRef x, VRef y => (x =? y)%positive
  | _, _ => false
  end.

(** An object is a finite map from property names to values, the heap a
    finite map from references to objects. *)
Abbreviation obj := (gmap string value).
Abbreviation heap := (gmap loc (gmap string value)).

(** [o.p]: a missing property reads as [undefined]. *)
Definition get_prop (h : heap) (l : loc) (p : string) : value :=
  default VUndefined (h !! l ≫= (.!! p)).

(** [o.p = v] *)
Definition set_prop (h : heap) (l : loc) (p : string) (v : value) : heap :=
  <[l := <[p := v]> (default ∅ (h !! l))]> h.

(** [new Error(...)] and its like: the object gets a reference that is
    not in use. *)
Definition alloc (h : heap) (o : obj) : loc * heap :=
  let l := fresh (dom h) in (l, <[l := o]> h).

(** [undefined] and [null], which have no properties at all. *)
Definition is_nullish (v : value) : bool :=
  match v with VUndefined | VNull => true | _ => false end.

(** [v.p] for any value: [None] stands for the [TypeError] that reading a
    property of [undefined] or [null] throws.  A boolean, a number or a
    string has none of the properties that are read in this file
    ([removeFromPool], [code]), so they read as [undefined]. *)
Definition get (h : heap) (v : value) (p : string) : option value :=
  match v with
  | VUndefined | VNull => None
  | VRef l => Some (get_prop h l p)
  | VBool _ | VNum _ | VStr _ => Some VUndefined
  end.

(** [v.p = x] for any value, in strict mode: [None] stands for the
    [TypeError] that the assignment throws when [v] is not an object. *)
Definition put (h : heap) (v : value) (p : string) (x : value) : option heap :=
  match v with
  | VRef l => Some (set_prop h l p x)
  | _ => None
  end.

(** The [TypeError] that such a read or write throws: a new object.  Its
    message depends on the engine and is left out. *)
Definition type_error (h : heap) : loc * heap :=
  alloc h {[ "name" := VStr "TypeError" ]}.

(** What a [yield] resumes with: a value, or whatever was thrown into the
    generator.  Anything can be thrown: an error object, named by its
    reference, but also a string, a number, [undefined] or [null] (a
    promise rejected with no reason). *)
Inductive outcome (A : Type) :=
| Return (a : A)
| Throw (err : value).
Arguments Return {A} a.
Arguments Throw {A} err.

(** The result object of a statement; only its [rows] are read here. *)
Record QResult := { rows : list value }.

(** A pooled client, named by the pool. *)
Definition client := nat.

(** A statement sent on a client: SQL text and parameters (an omitted
    [params] argument is the empty list). *)
Definition stmt : Type := string * list value.

(** What the pool and the store see, in order. *)
Inductive event :=
| EAcquire (c : client)
| EStmt (c : client) (sql : string) (params : list value)
| ERelease (c : client) (discard : option string).

Definition stmt_event (c : client) (s : stmt) : event := EStmt c s.1 s.2.

(** Outcome of a function that may recurse without bound: [OutOfFuel]
    is returned when the recursion is deeper than the fuel given. *)
Inductive completion (A : Type) :=
| Done (o : outcome A)
| OutOfFuel.
Arguments Done {A} o.
Arguments OutOfFuel {A}.

Section Db.

(** The state of the store and of whatever else a work unit touches. *)
Context {St : Type}.

Record env := { store : St; objs : heap }.

(** ** Code that runs on a leased client

    A generator that is handed a client: it changes the environment,
    sends statements on the client (recorded in order) and returns or
    throws.  It has no access to the pool's release function. *)
Definition CM (A : Type) : Type := env → outcome A * env * list stmt.

Definition ret {A} (a : A) : CM A := λ σ, (Return a, σ, []).

Definition throw {A} (err : value) : CM A := λ σ, (Throw err, σ, []).

Definition bind {A B} (m : CM A) (k : A → CM B) : CM B := λ σ,
  match m σ with
  | (Return a, σ1, t1) =>
      match k a σ1 with (r, σ2, t2) => (r, σ2, t1 ++ t2) end
  | (Throw err, σ1, t1) => (Throw err, σ1, t1)
  end.

(** [try { m } catch (err) { handler err }] *)
Definition try_catch {A} (m : CM A) (handler : value → CM A) : CM A := λ σ,
  match m σ with
  | (Return a, σ1, t1) => (Return a, σ1, t1)
  | (Throw err, σ1, t1) =>
      match handler err σ1 with (r, σ2, t2) => (r, σ2, t1 ++ t2) end
  end.

(** [err.p = v] as a step of a generator: it throws a [TypeError] when
    [err] is not an object. *)
Definition assign (err : value) (p : string) (v : value) : CM unit := λ σ,
  match put (objs σ) err p v with
  | Some h => (Return tt, {| store := store σ; objs := h |}, [])
  | None =>
      let '(te, h) := type_error (objs σ) in
      (Throw (VRef te), {| store := store σ; objs := h |}, [])
  end.

Notation "x <- m ;; k" := (bind m (λ x, k))
  (at level 100, m at next level, right associativity).
Notation "m ;;; k" := (bind m (λ _, k))
  (at level 100, right associativity).

(** ** The collaborators: pool and store (the [pg] library) *)

(** [pg.connectPromise(config.DATABASE_URL)]: a client of the pool, or a
    connection error. *)
Variable pg_connect : env → outcome client * env.

(** [client.queryPromise(sql, params)] as the store answers it. *)
Variable pg_query : client → string → list value → env → outcome QResult * env.

Definition queryPromise (c : client) (sql : string) (params : list value) : CM QResult :=
  λ σ, match pg_query c sql params σ with (r, σ1) => (r, σ1, [(sql, params)]) end.

(** ** The pool's side: leases and the trace *)

Record world := { wenv : env; trace : list event }.

(** [yield pg.connectPromise(...)]: on success the pool has leased [c]. *)
Definition connectPromise (w : world) : outcome client * world :=
  match pg_connect (wenv w) with
  | (Return c, σ) => (Return c, {| wenv := σ; trace := trace w ++ [EAcquire c] |})
  | (Throw err, σ) => (Throw err, {| wenv := σ; trace := trace w |})
  end.

(** [done()] and [done(new Error(msg))]: the lease of [c] ends; with an
    error argument the pool drops the connection.  The pool consumes the
    error object, of which the trace keeps the message. *)
Definition done (c : client) (discard : option string) (w : world) : world :=
  {| wenv := wenv w; trace := trace w ++ [ERelease c discard] |}.

(** [yield m] where [m] runs on the leased client [c]. *)
Definition run {A} (c : client) (m : CM A) (w : world) : outcome A * world :=
  match m (wenv w) with
  | (r, σ, t) => (r, {| wenv := σ; trace := trace w ++ map (stmt_event c) t |})
  end.

(** ** Core helper functions *)

(** [function* query(sql, params)], lines 24-34. *)
Definition query (sql : string) (params : list value) (w : world)
  : outcome QResult * world :=
  match connectPromise w with
  | (Throw err, w1) => (Throw err, w1)
  | (Return client, w1) =>
      match run client (queryPromise client sql params) w1 with
      | (r, w2) => (r, done client None w2)   (* finally *)
      end
  end.

(** [assert(cond)] of better-assert: a failed assertion throws a new
    [AssertionError] whose message is the asserted expression. *)
Definition assert (cond : bool) (expr : string) (w : world) : outcome unit * world :=
  if cond then (Return tt, w)
  else
    let '(err, h) := alloc (objs (wenv w))
                       {[ "name" := VStr "AssertionError"; "message" := VStr expr ]} in
    (Throw (VRef err),
     {| wenv := {| store := store (wenv w); objs := h |}; trace := trace w |}).

(** [function* queryOne(sql, params)], lines 36-40. *)
Definition queryOne (sql : string) (params : list value) (w : world)
  : outcome value * world :=
  match query sql params w with
  | (Throw err, w1) => (Throw err, w1)
  | (Return result, w1) =>
      match assert (length (rows result) <=? 1)%nat "result.rows.length <= 1" w1 with
      | (Throw err, w2) => (Throw err, w2)
      | (Return _, w2) => (Return (nth 0 (rows result) VUndefined), w2)
      end
  end.

(** [function* queryMany(sql, params)], lines 42-45. *)
Definition queryMany (sql : string) (params : list value) (w : world)
  : outcome (list value) * world :=
  match query sql params w with
  | (Throw err, w1) => (Throw err, w1)
  | (Return result, w1) => (Return (rows result), w1)
  end.

(** A [TypeError] thrown inside the [catch] block of [withClient]: it
    leaves the generator at once, so none of the calls of [done] that
    come later in the block is made. *)
Definition thrown_in_catch {A} (w : world) : completion A * world :=
  let '(te, h) := type_error (objs (wenv w)) in
  (Done (Throw (VRef te)),
   {| wenv := {| store := store (wenv w); objs := h |}; trace := trace w |}).

(** [function* withClient(runner)], lines 70-94.  The recursion of the
    deadlock branch has no bound in the source; here it consumes fuel.
    The [catch] block reads [err.removeFromPool] before any call of
    [done]. *)
Fixpoint withClient {A} (fuel : nat) (runner : client → CM A) (w : world)
  : completion A * world :=
  match fuel with
  | O => (OutOfFuel, w)
  | S fuel' =>
      match connectPromise w with
      | (Throw err, w1) => (Done (Throw err), w1)
      | (Return client, w1) =>
          match run client (runner client) w1 with
          | (Throw err, w2) =>
              match get (objs (wenv w2)) err "removeFromPool" with
              | None => thrown_in_catch w2
              | Some flag =>
                  if truthy flag then
                    match put (objs (wenv w2)) err "human"
                            (VStr "Could not remove from pool") with
                    | None => thrown_in_catch w2
                    | Some h =>
                        let w3 := {| wenv := {| store := store (wenv w2); objs := h |};
                                     trace := trace w2 |} in
                        let w4 := done client (Some "Removing connection from pool") w3 in
                        (Done (Throw err), w4)
                    end
                  else
                    match get (objs (wenv w2)) err "code" with
                    | None => thrown_in_catch w2
                    | Some code =>
                        if strict_equal code (VStr "40P01") then
                          let w3 := done client None w2 in
                          withClient fuel' runner w3
                        else
                          let w3 := done client None w2 in
                          (Done (Throw err), w3)
                    end
              end
          | (Return result, w2) =>
              let w3 := done client None w2 in
              (Done (Return result), w3)
          end
      end
  end.

(** The generator that [withTransaction] hands to [withClient],
    lines 99-115.  The inner [catch (err)] shadows the outer one: the
    error it flags and throws is ROLLBACK's. *)
Definition transaction {A} (runner : client → CM A) (client : client) : CM A :=
  try_catch
    (queryPromise client "BEGIN" [] ;;;
     result <- runner client ;;
     queryPromise client "COMMIT" [] ;;;
     ret result)
    (λ err,
       try_catch
         (queryPromise client "ROLLBACK" [] ;;; ret tt)
         (λ err, assign err "removeFromPool" (VBool true) ;;; throw err) ;;;
       throw err).

(** [function* withTransaction(runner)], lines 98-116. *)
Definition withTransaction {A} (fuel : nat) (runner : client → CM A) (w : world)
  : completion A * world :=
  withClient fuel (transaction runner) w.

(** ** Custom queries whose SQL text starts with a semicolon *)

(** Sequencing of two steps at the level of the pool: the second runs
    when the first has not thrown. *)
Definition and_then {A B} (m : world → outcome A * world)
    (k : A → world → outcome B * world) : world → outcome B * world := λ w,
  match m w with
  | (Return a, w1) => k a w1
  | (Throw err, w1) => (Throw err, w1)
  end.

(** [Number.isInteger]; the numbers of this model are the integers. *)
Definition isInteger (v : value) : bool :=
  match v with VNum _ => true | _ => false end.

(** [_.isString] *)
Definition isString (v : value) : bool :=
  match v with VStr _ => true | _ => false end.

Definition logoutSession_sql : string := ";
    UPDATE sessions
    SET logged_out_at = NOW()
    WHERE user_id = $1
      AND id = $2
  ".

(** [exports.logoutSession], lines 250-262. *)
Definition logoutSession (userId sessionId : value) : world → outcome QResult * world :=
  and_then (assert (isInteger userId) "Number.isInteger(userId)") (λ _,
  and_then (assert (isString sessionId) "_.isString(sessionId)") (λ _,
  query logoutSession_sql [userId; sessionId])).

Definition hideMessage_sql : string := ";
    UPDATE messages
    SET is_hidden = true
    WHERE id = $1
  ".

(** [exports.hideMessage], lines 264-274. *)
Definition hideMessage (messageId : value) : world → outcome QResult * world :=
  and_then (assert (truthy messageId) "messageId") (λ _,
  query hideMessage_sql [messageId]).

Definition getMessageById_sql : string := ";
    SELECT *
    FROM messages
    WHERE id = $1
  ".

(** [exports.getMessageById], lines 276-286. *)
Definition getMessageById (messageId : value) : world → outcome value * world :=
  and_then (assert (truthy messageId) "messageId") (λ _,
  queryOne getMessageById_sql [messageId]).

Definition getStats_sql : string := ";
    SELECT
      (SELECT COUNT(*) FROM users) AS users_count,
      (SELECT COUNT(*) FROM messages WHERE is_hidden = false) AS messages_count
  ".

(** [exports.admin.getStats], lines 382-390. *)
Definition getStats : world → outcome value * world :=
  queryOne getStats_sql [].

(** ** Reading a trace *)

(** One attempt as the pool sees it: a client is leased, statements are
    sent on that client, and the lease is ended once. *)
Inductive attempts : list event → Prop :=
| attempts_nil : attempts []
| attempts_cons c t d rest :
    attempts rest →
    attempts (EAcquire c :: map (stmt_event c) t ++ ERelease c d :: rest).

(** The same as a check that runs: [held] is the lease that is open.  A
    release with no lease open (a second release), an acquire or the end
    of the trace with a lease open (a missing release), and a statement on
    a client that is not leased are all refused. *)
Fixpoint balanced (held : option client) (t : list event) : bool :=
  match t with
  | [] => match held with None => true | Some _ => false end
  | EAcquire c :: t' =>
      match held with None => balanced (Some c) t' | Some _ => false end
  | EStmt c _ _ :: t' =>
      match held with Some c' => Nat.eqb c c' && balanced held t' | None => false end
  | ERelease c _ :: t' =>
      match held with Some c' => Nat.eqb c c' && balanced None t' | None => false end
  end.

Definition is_acquire (e : event) : bool :=
  match e with EAcquire _ => true | _ => false end.

Definition is_release (e : event) : bool :=
  match e with ERelease _ _ => true | _ => false end.

Definition is_discard (e : event) : bool :=
  match e with ERelease _ (Some _) => true | _ => false end.

Fixpoint count (P : event → bool) (t : list event) : nat :=
  match t with
  | [] => 0
  | e :: t' => (if P e then 1 else 0) + count P t'
  end.

Definition acquires (t : list event) : nat := count is_acquire t.
Definition releases (t : list event) : nat := count is_release t.
Definition discards (t : list event) : nat := count is_discard t.

(** The classes of failure that the [catch] of [withClient] tells apart,
    in the order it tests them. *)
Definition flagged (h : heap) (err : loc) : bool :=
  truthy (get_prop h err "removeFromPool").

Definition deadlock_code (h : heap) (err : loc) : bool :=
  strict_equal (get_prop h err "code") (VStr "40P01").

(** The same tests on any thrown value that has properties, and the heap
    after [err.human = ...]. *)
Definition flag_of (h : heap) (err : value) : bool :=
  match get h err "removeFromPool" with Some flag => truthy flag | None => false end.

Definition code_is_deadlock (h : heap) (err : value) : bool :=
  match get h err "code" with
  | Some code => strict_equal code (VStr "40P01")
  | None => false
  end.

Definition annotated (h : heap) (err : value) : heap :=
  match put h err "human" (VStr "Could not remove from pool") with
  | Some h' => h'
  | None => h
  end.

(** [n] attempts in a row, from [w] to [w'], that each lease a client, run
    the work unit on it, fail on the deadlock branch and release. *)
Inductive deadlocked {A} (runner : client → CM A) : nat → world → world → Prop :=
| deadlocked_O w : deadlocked runner 0 w w
| deadlocked_S n w c σ0 err σ1 t w' :
    pg_connect (wenv w) = (Return c, σ0) →
    runner c σ0 = (Throw (VRef err), σ1, t) →
    flagged (objs σ1) err = false →
    deadlock_code (objs σ1) err = true →
    deadlocked runner n
      {| wenv := σ1;
         trace := trace w ++ EAcquire c :: map (stmt_event c) t ++ [ERelease c None] |} w' →
    deadlocked runner (S n) w w'.

(** The [try] block of [withTransaction] fails with [err]: BEGIN is
    refused, or the work unit throws, or COMMIT is refused.  [σ1] is the
    environment at the throw and [t] the statements sent up to it. *)
Inductive tx_failure {A} (runner : client → CM A) (c : client) (σ0 : env)
  : value → env → list stmt → Prop :=
| fails_in_begin err σ1 :
    pg_query c "BEGIN" [] σ0 = (Throw err, σ1) →
    tx_failure runner c σ0 err σ1 [("BEGIN", [])]
| fails_in_work rb σb err σ1 t :
    pg_query c "BEGIN" [] σ0 = (Return rb, σb) →
    runner c σb = (Throw err, σ1, t) →
    tx_failure runner c σ0 err σ1 (("BEGIN", []) :: t)
| fails_in_commit rb σb v σw t err σ1 :
    pg_query c "BEGIN" [] σ0 = (Return rb, σb) →
    runner c σb = (Return v, σw, t) →
    pg_query c "COMMIT" [] σw = (Throw err, σ1) →
    tx_failure runner c σ0 err σ1 (("BEGIN", []) :: t ++ [("COMMIT", [])]).


(** ** The helpers added to the client prototype *)

(** [pg.Client.prototype.queryOnePromise], lines 60-62: the first row of
    the result, with no assertion on the number of rows. *)
Definition queryOnePromise (c : client) (sql : string) (params : list value) : CM value :=
  result <- queryPromise c sql params ;;
  ret (nth 0 (rows result) VUndefined).

(** [pg.Client.prototype.queryManyPromise], lines 64-66. *)
Definition queryManyPromise (c : client) (sql : string) (params : list value)
  : CM (list value) :=
  result <- queryPromise c sql params ;;
  ret (rows result).

(** ** The other custom queries *)

(** The collaborators that are not part of this file: [belt.isValidUuid],
    [belt.hashPassword] (a yieldable that may reject) and [uuid.v4] (a
    generator of identifiers, with its own state). *)
Variable isValidUuid : value → bool.
Variable hashPassword : value → env → outcome value * env.
Variable uuid_v4 : env → value * env.

(** [_.isUndefined] and [_.isBoolean] *)
Definition isUndefined (v : value) : bool :=
  match v with VUndefined => true | _ => false end.

Definition isBoolean (v : value) : bool :=
  match v with VBool _ => true | _ => false end.

(** A step that does not involve the pool or a client. *)
Definition lift_env {A} (f : env → outcome A * env) : world → outcome A * world := λ w,
  match f (wenv w) with
  | (r, σ) => (r, {| wenv := σ; trace := trace w |})
  end.

(** The double quote of the SQL texts that name the column [user]. *)
Definition dquote : string :=
  String (Ascii.Ascii false true false false false true false false) EmptyString.

Definition getUserBySessionId_sql : string := "
    UPDATE users
    SET last_online_at = NOW()
    WHERE id = (
      SELECT u.id
      FROM users u
      WHERE u.id = (
        SELECT s.user_id
        FROM active_sessions s
        WHERE s.id = $1
      )
    )
    RETURNING *
  ".

Definition getUserByUname_sql : string := "
    SELECT *
    FROM users
    WHERE lower(uname) = lower($1)
  ".

Definition getRecentMessages_sql : string :=
  "
    SELECT
      m.*,
      to_json(u.*) " +:+ dquote +:+ "user" +:+ dquote +:+ "
    FROM messages m
    LEFT JOIN users u ON m.user_id = u.id
    WHERE m.is_hidden = false
    ORDER BY m.id DESC
    LIMIT 25
  ".

Definition getRecentMessagesForUserId_sql : string :=
  "
    SELECT
      m.*,
      to_json(u.*) " +:+ dquote +:+ "user" +:+ dquote +:+ "
    FROM messages m
    LEFT JOIN users u ON m.user_id = u.id
    WHERE m.is_hidden = false
      AND u.id = $1
    ORDER BY m.id DESC
    LIMIT 25
  ".

Definition insertMessage_sql : string := "
    INSERT INTO messages (user_id, markup, ip_address, user_agent)
    VALUES ($1, $2, $3::inet, $4)
    RETURNING *
  ".

Definition insertUser_sql : string := "
    INSERT INTO users (uname, email, digest)
    VALUES ($1, $2, $3)
    RETURNING *
  ".

Definition insertSession_sql : string := "
    INSERT INTO sessions (id, user_id, ip_address, user_agent, expired_at)
    VALUES ($1, $2, $3::inet, $4, NOW() + $5::interval)
    RETURNING *
  ".

Definition updateUser_sql : string := "
    UPDATE users
    SET
      email = $2,
      role  = COALESCE($3, role)
    WHERE id = $1
    RETURNING *
  ".

Definition updateUserRole_sql : string := "
    UPDATE users
    SET role = $2::user_role
    WHERE id = $1
    RETURNING *
  ".

Definition updateMessage_sql : string := "
    UPDATE messages
    SET
      is_hidden = COALESCE($2, is_hidden),
      markup    = COALESCE($3, markup)
    WHERE id = $1
    RETURNING *
  ".

Definition getMessages_sql : string :=
  "
    SELECT
      m.*,
      to_json(u.*) AS " +:+ dquote +:+ "user" +:+ dquote +:+ "
    FROM messages m
    LEFT OUTER JOIN users u ON m.user_id = u.id
    ORDER BY m.id DESC
  ".

Definition getUsers_sql : string := "
    SELECT
      u.*,
      (
        SELECT COUNT(*)
        FROM messages
        WHERE user_id = u.id AND is_hidden = false
      ) AS messages_count
    FROM users u
    ORDER BY u.id DESC
  ".

(** [exports.getUserBySessionId], lines 125-144. *)
Definition getUserBySessionId (sessionId : value) : world → outcome value * world :=
  and_then (assert (isValidUuid sessionId) "belt.isValidUuid(sessionId)") (λ _,
  queryOne getUserBySessionId_sql [sessionId]).

(** [exports.getUserByUname], lines 147-157. *)
Definition getUserByUname (uname : value) : world → outcome value * world :=
  and_then (assert (isString uname) "_.isString(uname)") (λ _,
  queryOne getUserByUname_sql [uname]).

(** [exports.getRecentMessages], lines 161-174. *)
Definition getRecentMessages : world → outcome (list value) * world :=
  queryMany getRecentMessages_sql [].

(** [exports.getRecentMessagesForUserId], lines 176-192. *)
Definition getRecentMessagesForUserId (userId : value)
  : world → outcome (list value) * world :=
  and_then (assert (isInteger userId) "Number.isInteger(userId)") (λ _,
  queryMany getRecentMessagesForUserId_sql [userId]).

(** [exports.insertMessage], lines 197-212.  [data] is an object of the
    heap; its properties are read when the function is called. *)
Definition insertMessage (data : loc) : world → outcome value * world := λ w,
  let h := objs (wenv w) in
  and_then (assert (isInteger (get_prop h data "user_id")
                    || isUndefined (get_prop h data "user_id"))
              "Number.isInteger(data.user_id) || _.isUndefined(data.user_id)") (λ _,
  and_then (assert (isString (get_prop h data "markup")) "_.isString(data.markup)") (λ _,
  and_then (assert (isString (get_prop h data "ip_address"))
              "_.isString(data.ip_address)") (λ _,
  and_then (assert (isString (get_prop h data "user_agent")
                    || isUndefined (get_prop h data "user_agent"))
              "_.isString(data.user_agent) || _.isUndefined(data.user_agent)") (λ _,
  queryOne insertMessage_sql
    [get_prop h data "user_id"; get_prop h data "markup";
     get_prop h data "ip_address"; get_prop h data "user_agent"])))) w.

(** [exports.insertUser], lines 217-231.  The password is read before
    [belt.hashPassword] is awaited, the name and the address after. *)
Definition insertUser (data : loc) : world → outcome value * world := λ w,
  let h := objs (wenv w) in
  and_then (assert (isString (get_prop h data "uname")) "_.isString(data.uname)") (λ _,
  and_then (assert (isString (get_prop h data "email")
                    || isUndefined (get_prop h data "email"))
              "_.isString(data.email) || _.isUndefined(data.email)") (λ _,
  and_then (assert (isString (get_prop h data "password"))
              "_.isString(data.password)") (λ _,
  and_then (lift_env (hashPassword (get_prop h data "password"))) (λ digest w1,
  let h1 := objs (wenv w1) in
  queryOne insertUser_sql
    [get_prop h1 data "uname"; get_prop h1 data "email"; digest] w1)))) w.

(** [exports.insertSession], lines 233-248.  [uuid.v4()] is the first
    element of the parameter array, so it is called before the properties
    of [data] are read for the statement. *)
Definition insertSession (data : loc) : world → outcome value * world := λ w,
  let h := objs (wenv w) in
  and_then (assert (isInteger (get_prop h data "user_id"))
              "Number.isInteger(data.user_id)") (λ _,
  and_then (assert (isString (get_prop h data "ip_address"))
              "_.isString(data.ip_address)") (λ _,
  and_then (assert (isString (get_prop h data "user_agent")
                    || isUndefined (get_prop h data "user_agent"))
              "_.isString(data.user_agent) || _.isUndefined(data.user_agent)") (λ _,
  and_then (assert (isString (get_prop h data "interval"))
              "_.isString(data.interval)") (λ _ w1,
  match uuid_v4 (wenv w1) with
  | (id, σ) =>
      queryOne insertSession_sql
        [id; get_prop (objs σ) data "user_id"; get_prop (objs σ) data "ip_address";
         get_prop (objs σ) data "user_agent"; get_prop (objs σ) data "interval"]
        {| wenv := σ; trace := trace w1 |}
  end)))) w.

(** [exports.updateUser], lines 288-305: nothing is asserted of [data]. *)
Definition updateUser (userId : value) (data : loc) : world → outcome value * world := λ w,
  let h := objs (wenv w) in
  and_then (assert (isInteger userId) "Number.isInteger(userId)") (λ _,
  queryOne updateUser_sql
    [userId; get_prop h data "email"; get_prop h data "role"]) w.

(** [exports.updateUserRole], lines 307-319. *)
Definition updateUserRole (userId role : value) : world → outcome value * world :=
  and_then (assert (isInteger userId) "Number.isInteger(userId)") (λ _,
  and_then (assert (isString role) "_.isString(role)") (λ _,
  queryOne updateUserRole_sql [userId; role])).

(** [exports.updateMessage], lines 321-338. *)
Definition updateMessage (messageId : value) (data : loc)
  : world → outcome value * world := λ w,
  let h := objs (wenv w) in
  and_then (assert (isInteger messageId) "Number.isInteger(messageId)") (λ _,
  and_then (assert (isBoolean (get_prop h data "is_hidden")
                    || isUndefined (get_prop h data "is_hidden"))
              "_.isBoolean(data.is_hidden) || _.isUndefined(data.is_hidden)") (λ _,
  and_then (assert (isString (get_prop h data "markup")
                    || isUndefined (get_prop h data "markup"))
              "_.isString(data.markup) || _.isUndefined(data.markup)") (λ _,
  queryOne updateMessage_sql
    [messageId; get_prop h data "is_hidden"; get_prop h data "markup"]))) w.

(** [exports.getMessages], lines 341-352. *)
Definition getMessages : world → outcome (list value) * world :=
  queryMany getMessages_sql [].

(** [exports.getUsers], lines 357-371. *)
Definition getUsers : world → outcome (list value) * world :=
  queryMany getUsers_sql [].

(** ** Reading the behaviour of an exported function *)

(** The call is refused by an assertion: a new [AssertionError] is thrown,
    and nothing else has happened (no lease, no statement, the store and
    the other objects as they were). *)
Definition rejected {A} (m : world → outcome A * world) (w : world) : Prop :=
  ∃ err expr,
    m w = (Throw (VRef err),
           {| wenv := {| store := store (wenv w);
                         objs := <[err := {[ "name" := VStr "AssertionError";
                                             "message" := VStr expr ]}]> (objs (wenv w)) |};
              trace := trace w |})
    ∧ objs (wenv w) !! err = None.

(** The call leases at most one client and ends the lease it has taken. *)
Definition single_lease {A} (m : world → outcome A * world) : Prop :=
  ∀ w, ∃ t, trace (m w).2 = trace w ++ t ∧ attempts t ∧ acquires t ≤ 1.

(** What the assertions of the functions that take a [data] object ask
    of it, as one condition. *)
Definition insertMessage_valid (h : heap) (data : loc) : bool :=
  (isInteger (get_prop h data "user_id") || isUndefined (get_prop h data "user_id"))
  && isString (get_prop h data "markup")
  && isString (get_prop h data "ip_address")
  && (isString (get_prop h data "user_agent") || isUndefined (get_prop h data "user_agent")).

Definition insertUser_valid (h : heap) (data : loc) : bool :=
  isString (get_prop h data "uname")
  && (isString (get_prop h data "email") || isUndefined (get_prop h data "email"))
  && isString (get_prop h data "password").

Definition insertSession_valid (h : heap) (data : loc) : bool :=
  isInteger (get_prop h data "user_id")
  && isString (get_prop h data "ip_address")
  && (isString (get_prop h data "user_agent") || isUndefined (get_prop h data "user_agent"))
  && isString (get_prop h data "interval").

Definition updateMessage_valid (h : heap) (messageId : value) (data : loc) : bool :=
  isInteger messageId
  && (isBoolean (get_prop h data "is_hidden") || isUndefined (get_prop h data "is_hidden"))
  && (isString (get_prop h data "markup") || isUndefined (get_prop h data "markup")).

(** The attempts of [withTransaction] as the pool and the store see them:
    on each lease BEGIN comes first, and the last statement before the
    release is COMMIT or ROLLBACK. *)
Inductive tx_attempts : list event → Prop :=
| tx_attempts_nil : tx_attempts []
| tx_attempts_cons c t closing d rest :
    closing = "COMMIT" ∨ closing = "ROLLBACK" →
    tx_attempts rest →
    tx_attempts (EAcquire c :: EStmt c "BEGIN" [] :: map (stmt_event c) t
                   ++ EStmt c closing [] :: ERelease c d :: rest).

End Db.

Arguments env St : clear implicits.
Arguments world St : clear implicits.
Arguments CM St A : clear implicits.

(** ** A store and work units to run the definitions on *)

Module Demo.

(** Error objects that are already on the heap: a deadlock report, a lost
    connection, a constraint violation, and a deadlock report that a work
    unit has flagged as unsafe for the pool. *)
Definition deadlock_err : loc := 1%positive.
Definition lost_err : loc := 2%positive.
Definition unique_err : loc := 3%positive.
Definition flagged_err : loc := 4%positive.

Definition errors : heap :=
  {[ deadlock_err := {[ "code" := VStr "40P01"; "message" := VStr "deadlock detected" ]};
     lost_err := {[ "message" := VStr "Connection terminated" ]};
     unique_err := {[ "code" := VStr "23505"; "message" := VStr "duplicate key value" ]};
     flagged_err := {[ "code" := VStr "40P01"; "removeFromPool" := VBool true ]} ]}.

(** The store counts the attempts of the work unit; the pool names each
    lease after that count and never fails. *)
Definition connect (σ : env nat) : outcome client * env nat := (Return (store σ), σ).

Fixpoint answer (script : list (string * outcome QResult)) (sql : string)
  : outcome QResult :=
  match script with
  | [] => Return {| rows := [] |}
  | (s, r) :: script' => if String.eqb s sql then r else answer script' sql
  end.

(** A store that answers by a script: the listed statements get the listed
    answer, every other statement succeeds with no rows. *)
Definition scripted (script : list (string * outcome QResult))
    (c : client) (sql : string) (params : list value) (σ : env nat)
  : outcome QResult * env nat :=
  (answer script sql, σ).

(** The environment after [n] attempts of a work unit. *)
Definition after (n : nat) : env nat := {| store := n; objs := errors |}.

Definition start : world nat := {| wenv := after 0; trace := [] |}.

(** A work unit that throws [err] on its first [n] attempts, sending one
    statement each time, and returns [v] afterwards. *)
Definition flaky (n : nat) (err : loc) (v : value) (c : client) : CM nat value := λ σ,
  if (store σ <? n)%nat
  then (Throw (VRef err), {| store := S (store σ); objs := objs σ |},
        [("UPDATE counters SET n = n + 1", [])])
  else (Return v, {| store := S (store σ); objs := objs σ |}, [("SELECT 1", [])]).

(** A work unit that reports a deadlock on every attempt, whatever the
    state it is started in. *)
Definition hopeless (c : client) : CM nat value := λ σ,
  (Throw (VRef deadlock_err),
   {| store := S (store σ);
      objs := <[deadlock_err := {[ "code" := VStr "40P01" ]}]> (objs σ) |},
   []).

(** A work unit that sends one statement and then throws [v], which may
    be any value: [thrower VUndefined] is a promise rejected with no
    reason. *)
Definition thrower (v : value) (c : client) : CM nat value := λ σ,
  (Throw v, {| store := S (store σ); objs := objs σ |}, [("SELECT 1", [])]).

Definition rows_script : list (string * outcome QResult) :=
  [ ("SELECT 1 ROW", Return {| rows := [VStr "a"] |});
    ("SELECT 2 ROWS", Return {| rows := [VStr "a"; VStr "b"] |});
    ("SELECT 3 ROWS", Return {| rows := [VStr "c"; VStr "a"; VStr "b"] |}) ].

End Demo.

(** ** More of the store: the collaborators of the custom queries *)

Module Demo2.
Import Demo.

(** A stand-in for [belt.isValidUuid]: a string of 36 characters. *)
Definition valid_uuid (v : value) : bool :=
  match v with VStr s => String.length s =? 36 | _ => false end.

(** Stand-ins for [belt.hashPassword]: one that answers, one that rejects. *)
Definition hash (pw : value) (σ : env nat) : outcome value * env nat :=
  match pw with
  | VStr s => (Return (VStr ("digest of " +:+ s)), σ)
  | _ => (Throw (VRef lost_err), σ)
  end.

Definition no_hash (pw : value) (σ : env nat) : outcome value * env nat :=
  (Throw (VRef lost_err), σ).

(** A stand-in for [uuid.v4]. *)
Definition next_uuid (σ : env nat) : value * env nat :=
  (VStr "110ec58a-a0f2-4ac4-8393-c866d813b8d1", σ).

(** Two [data] objects: a sign-up form, and one whose name is a number. *)
Definition form : loc := 10%positive.
Definition bad_form : loc := 11%positive.

Definition forms : heap :=
  <[form := {[ "uname" := VStr "ann"; "password" := VStr "secret" ]}]>
    (<[bad_form := {[ "uname" := VNum 3; "password" := VStr "secret" ]}]> errors).

Definition desk : world nat :=
  {| wenv := {| store := 0; objs := forms |}; trace := [] |}.

(** A pool that has no client to give. *)
Definition no_pool (σ : env nat) : outcome client * env nat :=
  (Throw (VRef lost_err), σ).

End Demo2.

(** * Properties *)

(** ** Properties of objects *)

Lemma get_set_prop_eq (h : heap) l p v : get_prop (set_prop h l p v) l p = v.
Proof.
  unfold get_prop, set_prop. rewrite lookup_insert_eq. simpl.
  by rewrite lookup_insert_eq.
Qed.


Lemma alloc_fresh (h : heap) o : h !! (alloc h o).1 = None.
Proof.
  unfold alloc. simpl. apply not_elem_of_dom. apply is_fresh.
Qed.

(** ** Properties of traces *)

Lemma balanced_stmts c t rest :
  balanced (Some c) (map (stmt_event c) t ++ rest) = balanced (Some c) rest.
Proof.
  induction t as [|s t IH]; simpl; [done|].
  by rewrite Nat.eqb_refl, IH.
Qed.


Lemma count_app P t1 t2 : count P (t1 ++ t2) = count P t1 + count P t2.
Proof. induction t1 as [|e t1 IH]; simpl; [done|]. rewrite IH. lia. Qed.

Lemma count_stmts P c t :
  (∀ sql params, P (EStmt c sql params) = false) →
  count P (map (stmt_event c) t) = 0.
Proof.
  intros HP. induction t as [|s t IH]; simpl; [done|].
  unfold stmt_event at 1. by rewrite HP, IH.
Qed.

Lemma acquires_app t1 t2 : acquires (t1 ++ t2) = acquires t1 + acquires t2.
Proof. apply count_app. Qed.

Lemma releases_app t1 t2 : releases (t1 ++ t2) = releases t1 + releases t2.
Proof. apply count_app. Qed.

Lemma discards_app t1 t2 : discards (t1 ++ t2) = discards t1 + discards t2.
Proof. apply count_app. Qed.

Lemma acquires_stmts c t : acquires (map (stmt_event c) t) = 0.
Proof. by apply count_stmts. Qed.

Lemma releases_stmts c t : releases (map (stmt_event c) t) = 0.
Proof. by apply count_stmts. Qed.

Lemma discards_stmts c t : discards (map (stmt_event c) t) = 0.
Proof. by apply count_stmts. Qed.

Lemma acquires_attempt c t d rest :
  acquires (EAcquire c :: map (stmt_event c) t ++ ERelease c d :: rest) = S (acquires rest).
Proof.
  change (EAcquire c :: map (stmt_event c) t ++ ERelease c d :: rest)
    with ([EAcquire c] ++ map (stmt_event c) t ++ [ERelease c d] ++ rest).
  rewrite !acquires_app, acquires_stmts. reflexivity.
Qed.

Lemma releases_attempt c t d rest :
  releases (EAcquire c :: map (stmt_event c) t ++ ERelease c d :: rest) = S (releases rest).
Proof.
  change (EAcquire c :: map (stmt_event c) t ++ ERelease c d :: rest)
    with ([EAcquire c] ++ map (stmt_event c) t ++ [ERelease c d] ++ rest).
  rewrite !releases_app, releases_stmts. reflexivity.
Qed.


Lemma attempts_app t1 t2 : attempts t1 → attempts t2 → attempts (t1 ++ t2).
Proof.
  induction 1 as [|c t d rest _ IH]; intros H2; simpl; [done|].
  rewrite <- app_assoc. simpl. constructor. by apply IH.
Qed.

Lemma attempts_one c t d : attempts (EAcquire c :: map (stmt_event c) t ++ [ERelease c d]).
Proof. apply (attempts_cons c t d []). constructor. Qed.

Section Governor.

Context {St : Type}.
Variable pg_connect : env St → outcome client * env St.
Variable pg_query : client → string → list value → env St → outcome QResult * env St.

(** ** One attempt of [withClient], branch by branch *)

Lemma withClient_no_connection {A} fuel (runner : client → CM St A) w err σ0 :
  pg_connect (wenv w) = (Throw err, σ0) →
  withClient pg_connect (S fuel) runner w
  = (Done (Throw err), {| wenv := σ0; trace := trace w |}).
Proof.
  intros Hc. simpl. unfold connectPromise. by rewrite Hc.
Qed.

Lemma withClient_returns {A} fuel (runner : client → CM St A) w c σ0 v σ1 t :
  pg_connect (wenv w) = (Return c, σ0) →
  runner c σ0 = (Return v, σ1, t) →
  withClient pg_connect (S fuel) runner w
  = (Done (Return v),
     {| wenv := σ1;
        trace := trace w ++ EAcquire c :: map (stmt_event c) t ++ [ERelease c None] |}).
Proof.
  intros Hc Hr. simpl. unfold connectPromise, run. rewrite Hc. simpl. rewrite Hr.
  unfold done. simpl. by rewrite <- !app_assoc.
Qed.

(** One attempt in which the work unit throws: the [catch] block, test
    by test.  The first test reads a property of what was thrown, and
    every call of [done] comes after it. *)
Lemma withClient_throws {A} fuel (runner : client → CM St A) w c σ0 err σ1 t :
  pg_connect (wenv w) = (Return c, σ0) →
  runner c σ0 = (Throw err, σ1, t) →
  withClient pg_connect (S fuel) runner w
  = if is_nullish err then
      (Done (Throw (VRef (type_error (objs σ1)).1)),
       {| wenv := {| store := store σ1; objs := (type_error (objs σ1)).2 |};
          trace := trace w ++ EAcquire c :: map (stmt_event c) t |})
    else if flag_of (objs σ1) err then
      (Done (Throw err),
       {| wenv := {| store := store σ1; objs := annotated (objs σ1) err |};
          trace := trace w ++ EAcquire c :: map (stmt_event c) t
                     ++ [ERelease c (Some "Removing connection from pool")] |})
    else if code_is_deadlock (objs σ1) err then
      withClient pg_connect fuel runner
        {| wenv := σ1;
           trace := trace w ++ EAcquire c :: map (stmt_event c) t ++ [ERelease c None] |}
    else
      (Done (Throw err),
       {| wenv := σ1;
          trace := trace w ++ EAcquire c :: map (stmt_event c) t ++ [ERelease c None] |}).
Proof.
  intros Hc Hr. simpl. unfold connectPromise, run. rewrite Hc. simpl. rewrite Hr.
  unfold thrown_in_catch, flag_of, code_is_deadlock, annotated, done.
  destruct err as [| |b|n|s|l]; simpl; by rewrite <- ?app_assoc.
Qed.


Lemma withClient_retries {A} fuel (runner : client → CM St A) w c σ0 err σ1 t :
  pg_connect (wenv w) = (Return c, σ0) →
  runner c σ0 = (Throw (VRef err), σ1, t) →
  flagged (objs σ1) err = false →
  deadlock_code (objs σ1) err = true →
  withClient pg_connect (S fuel) runner w
  = withClient pg_connect fuel runner
      {| wenv := σ1;
         trace := trace w ++ EAcquire c :: map (stmt_event c) t ++ [ERelease c None] |}.
Proof.
  intros Hc Hr Hf Hd. rewrite (withClient_throws _ _ _ _ _ _ _ _ Hc Hr). simpl.
  change (flag_of (objs σ1) (VRef err)) with (flagged (objs σ1) err).
  change (code_is_deadlock (objs σ1) (VRef err)) with (deadlock_code (objs σ1) err).
  by rewrite Hf, Hd.
Qed.

Lemma withClient_rethrows {A} fuel (runner : client → CM St A) w c σ0 err σ1 t :
  pg_connect (wenv w) = (Return c, σ0) →
  runner c σ0 = (Throw (VRef err), σ1, t) →
  flagged (objs σ1) err = false →
  deadlock_code (objs σ1) err = false →
  withClient pg_connect (S fuel) runner w
  = (Done (Throw (VRef err)),
     {| wenv := σ1;
        trace := trace w ++ EAcquire c :: map (stmt_event c) t ++ [ERelease c None] |}).
Proof.
  intros Hc Hr Hf Hd. rewrite (withClient_throws _ _ _ _ _ _ _ _ Hc Hr). simpl.
  change (flag_of (objs σ1) (VRef err)) with (flagged (objs σ1) err).
  change (code_is_deadlock (objs σ1) (VRef err)) with (deadlock_code (objs σ1) err).
  by rewrite Hf, Hd.
Qed.

(** A value that is flagged is an object. *)
Lemma flag_of_object (h : heap) err :
  flag_of h err = true → ∃ l, err = VRef l ∧ flagged h l = true.
Proof. destruct err; try discriminate. intros H. by eexists. Qed.

(** What [query] adds to the trace: nothing when no client could be
    leased, one whole attempt otherwise. *)
Lemma query_attempts sql params w :
  ∃ t, trace (query pg_connect pg_query sql params w).2 = trace w ++ t ∧ attempts t.
Proof.
  unfold query, connectPromise.
  destruct (pg_connect (wenv w)) as [[c|err] σ0]; simpl.
  - unfold run, queryPromise. simpl.
    destruct (pg_query c sql params σ0) as [r σ1]. simpl.
    exists (EAcquire c :: map (stmt_event c) [(sql, params)] ++ [ERelease c None]).
    split; [by rewrite <- !app_assoc | apply attempts_one].
  - exists []. rewrite app_nil_r. split; [done|constructor].
Qed.

(** A result reached with some fuel is reached with any larger fuel: the
    fuel only bounds the recursion, it does not change what is computed. *)
Lemma withClient_fuel_mono {A} fuel fuel' (runner : client → CM St A) w o w' :
  withClient pg_connect fuel runner w = (Done o, w') →
  fuel ≤ fuel' →
  withClient pg_connect fuel' runner w = (Done o, w').
Proof.
  revert fuel' w. induction fuel as [|fuel IH]; intros fuel' w H Hle.
  { discriminate. }
  destruct fuel' as [|fuel']; [lia|].
  destruct (pg_connect (wenv w)) as [[c|err] σ0] eqn:Hc.
  2:{ rewrite (withClient_no_connection fuel _ _ _ _ Hc) in H.
      by rewrite (withClient_no_connection fuel' _ _ _ _ Hc). }
  destruct (runner c σ0) as [[[v|err] σ1] t] eqn:Hr.
  { rewrite (withClient_returns fuel _ _ _ _ _ _ _ Hc Hr) in H.
    by rewrite (withClient_returns fuel' _ _ _ _ _ _ _ Hc Hr). }
  rewrite (withClient_throws fuel _ _ _ _ _ _ _ Hc Hr) in H.
  rewrite (withClient_throws fuel' _ _ _ _ _ _ _ Hc Hr).
  destruct (is_nullish err); [done|].
  destruct (flag_of (objs σ1) err); [done|].
  destruct (code_is_deadlock (objs σ1) err); [|done].
  apply IH; [done|lia].
Qed.

(** [n] deadlocked attempts use up [n] units of fuel and leave the work to
    the next attempt. *)
Lemma deadlocked_withClient {A} (runner : client → CM St A) n w w' :
  deadlocked pg_connect runner n w w' →
  ∀ fuel, withClient pg_connect (n + fuel) runner w = withClient pg_connect fuel runner w'.
Proof.
  induction 1 as [w|n w c σ0 err σ1 t w' Hc Hr Hf Hd _ IH]; intros fuel; [done|].
  change (S n + fuel) with (S (n + fuel)).
  rewrite (withClient_retries _ _ _ _ _ _ _ _ Hc Hr Hf Hd). apply IH.
Qed.

Lemma deadlocked_trace {A} (runner : client → CM St A) n w w' :
  deadlocked pg_connect runner n w w' →
  ∃ t, trace w' = trace w ++ t ∧ attempts t ∧ acquires t = n ∧ discards t = 0.
Proof.
  induction 1 as [w|n w c σ0 err σ1 t w' Hc Hr Hf Hd _ IH].
  { exists []. rewrite app_nil_r. repeat split; constructor. }
  destruct IH as (t' & -> & Ha & Hn & Hz). simpl.
  exists ((EAcquire c :: map (stmt_event c) t ++ [ERelease c None]) ++ t').
  split; [by rewrite <- app_assoc|]. split; [apply attempts_app; [apply attempts_one|done]|].
  split.
  - rewrite acquires_app, acquires_attempt, Hn. reflexivity.
  - rewrite discards_app, Hz.
    change (EAcquire c :: map (stmt_event c) t ++ [ERelease c None])
      with ([EAcquire c] ++ map (stmt_event c) t ++ [ERelease c None]).
    rewrite !discards_app, discards_stmts. reflexivity.
Qed.

(** ** The claims about [withClient] and [query] *)

(** C1 does not hold of [withClient]: a lease is released zero times
    when the work unit throws [undefined] or [null].  The [catch] block
    reads [err.removeFromPool] first; on such a value the read throws a
    [TypeError], which leaves [withClient] before any call of [done].
    The caller gets the [TypeError], and the trace ends with the lease
    acquired, the statements of the work unit, and no release.  ([query]
    releases in a [finally] and has no such path.) *)
Theorem withClient_leaks_lease_on_nullish_failure {A} fuel (runner : client → CM St A)
    w c σ0 err σ1 t :
  pg_connect (wenv w) = (Return c, σ0) →
  runner c σ0 = (Throw err, σ1, t) →
  is_nullish err = true →
  let added := EAcquire c :: map (stmt_event c) t in
  ∃ te,
    withClient pg_connect (S fuel) runner w
    = (Done (Throw (VRef te)),
       {| wenv := {| store := store σ1;
                     objs := <[te := {[ "name" := VStr "TypeError" ]}]> (objs σ1) |};
          trace := trace w ++ added |})
    ∧ objs σ1 !! te = None
    ∧ acquires added = 1 ∧ releases added = 0 ∧ balanced None added = false.
Proof.
  intros Hc Hr Hn added.
  exists (type_error (objs σ1)).1.
  split; [|split; [|split; [|split]]].
  - rewrite (withClient_throws _ _ _ _ _ _ _ _ Hc Hr), Hn. reflexivity.
  - apply alloc_fresh.
  - unfold added. change (EAcquire c :: map (stmt_event c) t)
      with ([EAcquire c] ++ map (stmt_event c) t).
    rewrite acquires_app, acquires_stmts. reflexivity.
  - unfold added. change (EAcquire c :: map (stmt_event c) t)
      with ([EAcquire c] ++ map (stmt_event c) t).
    rewrite releases_app, releases_stmts. reflexivity.
  - unfold added. simpl.
    rewrite <- (app_nil_r (map (stmt_event c) t)). by rewrite balanced_stmts.
Qed.

(** C3.  A work unit that fails once on the deadlock branch (its error
    carries the code 40P01 and no pool flag) and returns on the next
    attempt: the first lease is released with no discard, a second lease
    is acquired, the work runs again from the state the first attempt
    left, and the caller gets the value of the second attempt.  The trace
    shows two whole acquire/release cycles. *)
Theorem withClient_deadlock_once_then_success {A} fuel (runner : client → CM St A)
    w c1 σ0 err σ1 t1 c2 σ2 v σ3 t2 :
  pg_connect (wenv w) = (Return c1, σ0) →
  runner c1 σ0 = (Throw (VRef err), σ1, t1) →
  flagged (objs σ1) err = false →
  deadlock_code (objs σ1) err = true →
  pg_connect σ1 = (Return c2, σ2) →
  runner c2 σ2 = (Return v, σ3, t2) →
  withClient pg_connect (S (S fuel)) runner w
  = (Done (Return v),
     {| wenv := σ3;
        trace := trace w
                   ++ (EAcquire c1 :: map (stmt_event c1) t1 ++ [ERelease c1 None])
                   ++ (EAcquire c2 :: map (stmt_event c2) t2 ++ [ERelease c2 None]) |}).
Proof.
  intros Hc1 Hr1 Hf Hd Hc2 Hr2.
  rewrite (withClient_retries _ _ _ _ _ _ _ _ Hc1 Hr1 Hf Hd).
  erewrite withClient_returns; [|exact Hc2|exact Hr2]. simpl.
  by rewrite <- app_assoc.
Qed.


(** C6 does not hold of [withClient] either, by the same defect.  A
    thrown [undefined] or [null] has neither the pool flag nor the
    deadlock code, but it does not reach the last branch of the [catch]
    block: the first test throws a [TypeError].  The caller gets that
    [TypeError], a new object and not what the work unit threw, and the
    lease is not released. *)
Theorem withClient_nullish_failure_not_reraised {A} fuel (runner : client → CM St A)
    w c σ0 err σ1 t :
  pg_connect (wenv w) = (Return c, σ0) →
  runner c σ0 = (Throw err, σ1, t) →
  is_nullish err = true →
  flag_of (objs σ1) err = false
  ∧ code_is_deadlock (objs σ1) err = false
  ∧ (withClient pg_connect (S fuel) runner w).1 ≠ Done (Throw err)
  ∧ trace (withClient pg_connect (S fuel) runner w).2
    = trace w ++ EAcquire c :: map (stmt_event c) t
  ∧ releases (EAcquire c :: map (stmt_event c) t) = 0.
Proof.
  intros Hc Hr Hn.
  rewrite (withClient_throws _ _ _ _ _ _ _ _ Hc Hr), Hn. simpl.
  split; [by destruct err|]. split; [by destruct err|].
  split; [by destruct err|]. split; [done|].
  change (EAcquire c :: map (stmt_event c) t)
    with ([EAcquire c] ++ map (stmt_event c) t).
  rewrite releases_app, releases_stmts. reflexivity.
Qed.

(** C7.  There is no bound on the retries.  For every [n], a work unit
    whose first [n] attempts fail on the deadlock branch and whose next
    attempt returns [v] makes [withClient] return [v], after [n + 1]
    leases, as soon as the fuel allows [n + 1] attempts.  And when every
    attempt fails on the deadlock branch (the pool handing out a client
    each time), no amount of fuel is enough: with fuel [k], [k] attempts
    are made and a further one is asked for. *)
Theorem withClient_retry_unbounded {A} (runner : client → CM St A) :
  (∀ n fuel w w' c σ0 v σ1 t,
     deadlocked pg_connect runner n w w' →
     pg_connect (wenv w') = (Return c, σ0) →
     runner c σ0 = (Return v, σ1, t) →
     n < fuel →
     ∃ t',
       withClient pg_connect fuel runner w
       = (Done (Return v), {| wenv := σ1; trace := trace w ++ t' |})
       ∧ attempts t' ∧ acquires t' = S n ∧ discards t' = 0)
  ∧ ((∀ σ, ∃ c σ0, pg_connect σ = (Return c, σ0)) →
     (∀ c σ0, ∃ err σ1 t,
        runner c σ0 = (Throw (VRef err), σ1, t)
        ∧ flagged (objs σ1) err = false ∧ deadlock_code (objs σ1) err = true) →
     ∀ fuel w,
       (withClient pg_connect fuel runner w).1 = OutOfFuel
       ∧ ∃ t', trace (withClient pg_connect fuel runner w).2 = trace w ++ t'
               ∧ attempts t' ∧ acquires t' = fuel).
Proof.
  split.
  - intros n fuel w w' c σ0 v σ1 t Hn Hc Hr Hlt.
    destruct (deadlocked_trace _ _ _ _ Hn) as (t0 & Ht0 & Ha & Hacq & Hdis).
    exists (t0 ++ EAcquire c :: map (stmt_event c) t ++ [ERelease c None]).
    split; [|split; [|split]].
    + replace fuel with (n + S (fuel - S n)) by lia.
      rewrite (deadlocked_withClient _ _ _ _ Hn).
      rewrite (withClient_returns _ _ _ _ _ _ _ _ Hc Hr).
      by rewrite Ht0, <- app_assoc.
    + apply attempts_app; [done | apply attempts_one].
    + rewrite acquires_app, acquires_attempt, Hacq.
      change (acquires []) with 0. lia.
    + change (EAcquire c :: map (stmt_event c) t ++ [ERelease c None])
        with ([EAcquire c] ++ map (stmt_event c) t ++ [ERelease c None]).
      rewrite !discards_app, discards_stmts, Hdis. reflexivity.
  - intros Hpool Hrun fuel. induction fuel as [|fuel IH]; intros w.
    { split; [done|]. exists []. simpl. rewrite app_nil_r.
      repeat split. constructor. }
    destruct (Hpool (wenv w)) as (c & σ0 & Hc).
    destruct (Hrun c σ0) as (err & σ1 & t & Hr & Hf & Hd).
    rewrite (withClient_retries _ _ _ _ _ _ _ _ Hc Hr Hf Hd).
    destruct (IH {| wenv := σ1;
                    trace := trace w ++ EAcquire c :: map (stmt_event c) t
                               ++ [ERelease c None] |}) as (Hout & t' & Ht' & Ha & Hacq).
    split; [done|]. rewrite Ht'. simpl.
    exists ((EAcquire c :: map (stmt_event c) t ++ [ERelease c None]) ++ t').
    split; [by rewrite <- app_assoc|].
    split; [apply attempts_app; [apply attempts_one|done]|].
    rewrite acquires_app, acquires_attempt, Hacq. reflexivity.
Qed.


(** ** [query] and its projections *)

Lemma query_returns sql params w c σ0 r σ1 :
  pg_connect (wenv w) = (Return c, σ0) →
  pg_query c sql params σ0 = (r, σ1) →
  query pg_connect pg_query sql params w
  = (r, {| wenv := σ1;
           trace := trace w ++ [EAcquire c; EStmt c sql params; ERelease c None] |}).
Proof.
  intros Hc Hq. unfold query, connectPromise, run, queryPromise, done.
  rewrite Hc. simpl. rewrite Hq. simpl. by rewrite <- !app_assoc.
Qed.

(** C8.  When the store answers a statement with a result, [queryMany]
    returns the rows of that result, the same list in the same order.
    [queryOne] returns [undefined] when there is no row and the row when
    there is one; with two rows or more its assertion fails: it throws an
    [AssertionError] object that is new on the heap.  In every case the
    connection that [query] leased has been released. *)
Theorem queryOne_queryMany_project sql params w c σ0 result σ1 :
  pg_connect (wenv w) = (Return c, σ0) →
  pg_query c sql params σ0 = (Return result, σ1) →
  let w1 := {| wenv := σ1;
               trace := trace w ++ [EAcquire c; EStmt c sql params; ERelease c None] |} in
  queryMany pg_connect pg_query sql params w = (Return (rows result), w1)
  ∧ (rows result = [] →
     queryOne pg_connect pg_query sql params w = (Return VUndefined, w1))
  ∧ (∀ row, rows result = [row] →
     queryOne pg_connect pg_query sql params w = (Return row, w1))
  ∧ (2 ≤ length (rows result) →
     ∃ err,
       queryOne pg_connect pg_query sql params w
       = (Throw (VRef err),
          {| wenv := {| store := store σ1;
                        objs := <[err := {[ "name" := VStr "AssertionError";
                                            "message" := VStr "result.rows.length <= 1" ]}]>
                                  (objs σ1) |};
             trace := trace w1 |})
       ∧ objs σ1 !! err = None).
Proof.
  intros Hc Hq w1.
  pose proof (query_returns _ _ _ _ _ _ _ Hc Hq) as Hquery. fold w1 in Hquery.
  unfold queryMany, queryOne. rewrite Hquery.
  split; [done|]. split; [|split].
  - intros ->. reflexivity.
  - intros row ->. reflexivity.
  - intros Hlen. unfold assert.
    destruct (length (rows result) <=? 1) eqn:Hle.
    { apply Nat.leb_le in Hle. lia. }
    eexists. split; [reflexivity|]. exact (alloc_fresh (objs σ1) ∅).
Qed.

(** ** [withTransaction] *)

Lemma transaction_commits {A} (runner : client → CM St A) c σ0 rb σ1 v σ2 t rc σ3 :
  pg_query c "BEGIN" [] σ0 = (Return rb, σ1) →
  runner c σ1 = (Return v, σ2, t) →
  pg_query c "COMMIT" [] σ2 = (Return rc, σ3) →
  transaction pg_query runner c σ0
  = (Return v, σ3, ("BEGIN", []) :: t ++ [("COMMIT", [])]).
Proof.
  intros Hb Hr Hcm. unfold transaction, try_catch, bind, queryPromise, ret.
  rewrite Hb, Hr, Hcm. simpl. by rewrite ?app_nil_r.
Qed.

(** The [try] block has failed and ROLLBACK goes through: the generator
    throws the error of the [try] block and leaves the heap alone. *)
Lemma transaction_rolls_back {A} (runner : client → CM St A) c σ0 err σ1 t r σ2 :
  tx_failure pg_query runner c σ0 err σ1 t →
  pg_query c "ROLLBACK" [] σ1 = (Return r, σ2) →
  transaction pg_query runner c σ0 = (Throw err, σ2, t ++ [("ROLLBACK", [])]).
Proof.
  intros Hfail Hrb. unfold transaction, try_catch, bind, queryPromise, ret, throw.
  destruct Hfail as [err σ1 Hb | rb σb err σ1 t Hb Hr | rb σb v σw t err σ1 Hb Hr Hcm].
  - rewrite Hb, Hrb. simpl. reflexivity.
  - rewrite Hb, Hr, Hrb. simpl. by rewrite ?app_nil_r.
  - rewrite Hb, Hr, Hcm, Hrb. simpl. by rewrite ?app_nil_r.
Qed.

(** The [try] block has failed and ROLLBACK fails too: the generator
    sets the pool flag on ROLLBACK's error and throws that one; when
    ROLLBACK's error is not an object, setting the flag throws a
    [TypeError] instead. *)
Lemma transaction_rollback_fails {A} (runner : client → CM St A) c σ0 err σ1 t err2 σ2 :
  tx_failure pg_query runner c σ0 err σ1 t →
  pg_query c "ROLLBACK" [] σ1 = (Throw err2, σ2) →
  transaction pg_query runner c σ0
  = match put (objs σ2) err2 "removeFromPool" (VBool true) with
    | Some h => (Throw err2, {| store := store σ2; objs := h |}, t ++ [("ROLLBACK", [])])
    | None =>
        (Throw (VRef (type_error (objs σ2)).1),
         {| store := store σ2; objs := (type_error (objs σ2)).2 |},
         t ++ [("ROLLBACK", [])])
    end.
Proof.
  intros Hfail Hrb.
  unfold transaction, try_catch, bind, queryPromise, ret, throw, assign.
  destruct Hfail as [err σ1 Hb | rb σb err σ1 t Hb Hr | rb σb v σw t err σ1 Hb Hr Hcm].
  - rewrite Hb, Hrb. simpl.
    by destruct (put (objs σ2) err2 "removeFromPool" (VBool true)).
  - rewrite Hb, Hr, Hrb. simpl.
    destruct (put (objs σ2) err2 "removeFromPool" (VBool true)); simpl;
      by rewrite ?app_nil_r.
  - rewrite Hb, Hr, Hcm, Hrb. simpl.
    destruct (put (objs σ2) err2 "removeFromPool" (VBool true)); simpl;
      by rewrite ?app_nil_r.
Qed.

(** C5.  A work unit that returns inside [withTransaction]: BEGIN is sent
    on the leased client, the work unit runs on the state BEGIN left and
    sends its statements, COMMIT is sent on the state the work left, the
    lease is released after COMMIT, and the caller gets the value the work
    unit returned. *)
Theorem withTransaction_commits {A} fuel (runner : client → CM St A)
    w c σ0 rb σ1 v σ2 t rc σ3 :
  pg_connect (wenv w) = (Return c, σ0) →
  pg_query c "BEGIN" [] σ0 = (Return rb, σ1) →
  runner c σ1 = (Return v, σ2, t) →
  pg_query c "COMMIT" [] σ2 = (Return rc, σ3) →
  withTransaction pg_connect pg_query (S fuel) runner w
  = (Done (Return v),
     {| wenv := σ3;
        trace := trace w ++ [EAcquire c; EStmt c "BEGIN" []]
                   ++ map (stmt_event c) t
                   ++ [EStmt c "COMMIT" []; ERelease c None] |}).
Proof.
  intros Hc Hb Hr Hcm. unfold withTransaction.
  rewrite (withClient_returns _ _ _ _ _ _ _ _ Hc
             (transaction_commits _ _ _ _ _ _ _ _ _ _ Hb Hr Hcm)).
  do 3 f_equal. simpl. rewrite map_app. simpl.
  by rewrite <- app_assoc.
Qed.


End Governor.

(** ** The custom queries with a leading semicolon *)

Section CustomQueries.

Context {St : Type}.
Variable pg_connect : env St → outcome client * env St.
Variable pg_query : client → string → list value → env St → outcome QResult * env St.

(** The four SQL texts start with a semicolon: an empty statement comes
    before the command. *)
Lemma leading_semicolon :
  String.prefix ";" logoutSession_sql = true
  ∧ String.prefix ";" hideMessage_sql = true
  ∧ String.prefix ";" getMessageById_sql = true
  ∧ String.prefix ";" getStats_sql = true.
Proof. repeat split. Qed.

(** The text reaches the store as it is, and what the store answers is
    what the caller gets: whether the call fails is the store's decision
    on a text with a leading empty statement. *)
Lemma logoutSession_asks_store userId sessionId w c σ0 r σ1 :
  isInteger userId = true →
  isString sessionId = true →
  pg_connect (wenv w) = (Return c, σ0) →
  pg_query c logoutSession_sql [userId; sessionId] σ0 = (r, σ1) →
  logoutSession pg_connect pg_query userId sessionId w
  = (r, {| wenv := σ1;
           trace := trace w ++ [EAcquire c;
                                EStmt c logoutSession_sql [userId; sessionId];
                                ERelease c None] |}).
Proof.
  intros Hi Hs Hc Hq. unfold logoutSession, and_then, assert.
  rewrite Hi, Hs. exact (query_returns _ _ _ _ _ _ _ _ _ Hc Hq).
Qed.

Lemma hideMessage_asks_store messageId w c σ0 r σ1 :
  truthy messageId = true →
  pg_connect (wenv w) = (Return c, σ0) →
  pg_query c hideMessage_sql [messageId] σ0 = (r, σ1) →
  hideMessage pg_connect pg_query messageId w
  = (r, {| wenv := σ1;
           trace := trace w ++ [EAcquire c; EStmt c hideMessage_sql [messageId];
                                ERelease c None] |}).
Proof.
  intros Ht Hc Hq. unfold hideMessage, and_then, assert.
  rewrite Ht. exact (query_returns _ _ _ _ _ _ _ _ _ Hc Hq).
Qed.

Lemma getMessageById_asks_store messageId w c σ0 r σ1 :
  truthy messageId = true →
  pg_connect (wenv w) = (Return c, σ0) →
  pg_query c getMessageById_sql [messageId] σ0 = (r, σ1) →
  let w1 := {| wenv := σ1;
               trace := trace w ++ [EAcquire c; EStmt c getMessageById_sql [messageId];
                                    ERelease c None] |} in
  match r with
  | Throw err => getMessageById pg_connect pg_query messageId w = (Throw err, w1)
  | Return result =>
      length (rows result) ≤ 1 →
      getMessageById pg_connect pg_query messageId w
      = (Return (nth 0 (rows result) VUndefined), w1)
  end.
Proof.
  intros Ht Hc Hq w1. unfold getMessageById, and_then.
  rewrite Ht. change (assert true "messageId" w) with (Return tt, w).
  unfold queryOne. cbv beta iota.
  rewrite (query_returns _ _ _ _ _ _ _ _ _ Hc Hq). fold w1.
  destruct r as [result|err]; [|done].
  intros Hle. apply Nat.leb_le in Hle. by rewrite Hle.
Qed.

End CustomQueries.

(** * The claims on a concrete store *)

Module Runs.
Import Demo.

(** One deadlock, then 42: two leases, both released without discard. *)
Lemma withClient_deadlock_once_then_success_witness :
  withClient connect 2 (flaky 1 deadlock_err (VNum 42)) start
  = (Done (Return (VNum 42)),
     {| wenv := after 2;
        trace := trace start
                   ++ (EAcquire 0
                         :: map (stmt_event 0) [("UPDATE counters SET n = n + 1", [])]
                         ++ [ERelease 0 None])
                   ++ (EAcquire 1 :: map (stmt_event 1) [("SELECT 1", [])]
                         ++ [ERelease 1 None]) |}).
Proof.
  apply (withClient_deadlock_once_then_success connect 0
           (flaky 1 deadlock_err (VNum 42)) start
           0 (after 0) deadlock_err (after 1) _ 1 (after 1) (VNum 42) (after 2) _);
    vm_compute; reflexivity.
Defined.


(** A work unit that sends one statement and rejects with no reason: the
    lease is never released. *)
Lemma withClient_leaks_lease_on_nullish_failure_witness :
  let added := EAcquire 0 :: map (stmt_event 0) [("SELECT 1", [])] in
  ∃ te,
    withClient connect 1 (thrower VUndefined) start
    = (Done (Throw (VRef te)),
       {| wenv := {| store := store (after 1);
                     objs := <[te := {[ "name" := VStr "TypeError" ]}]> (objs (after 1)) |};
          trace := trace start ++ added |})
    ∧ objs (after 1) !! te = None
    ∧ acquires added = 1 ∧ releases added = 0 ∧ balanced None added = false.
Proof.
  apply (withClient_leaks_lease_on_nullish_failure connect 0 (thrower VUndefined)
           start 0 (after 0) VUndefined (after 1) [("SELECT 1", [])]);
    reflexivity.
Defined.

(** The same with [null]: what the caller gets is not what was thrown. *)
Lemma withClient_nullish_failure_not_reraised_witness :
  flag_of (objs (after 1)) VNull = false
  ∧ code_is_deadlock (objs (after 1)) VNull = false
  ∧ (withClient connect 1 (thrower VNull) start).1 ≠ Done (Throw VNull)
  ∧ trace (withClient connect 1 (thrower VNull) start).2
    = trace start ++ EAcquire 0 :: map (stmt_event 0) [("SELECT 1", [])]
  ∧ releases (EAcquire 0 :: map (stmt_event 0) [("SELECT 1", [])]) = 0.
Proof.
  apply (withClient_nullish_failure_not_reraised connect 0 (thrower VNull)
           start 0 (after 0) VNull (after 1) [("SELECT 1", [])]);
    reflexivity.
Defined.


Lemma flaky_deadlocked :
  deadlocked connect (flaky 2 deadlock_err (VNum 42)) 2 start
    {| wenv := after 2;
       trace := [EAcquire 0; EStmt 0 "UPDATE counters SET n = n + 1" []; ERelease 0 None;
                 EAcquire 1; EStmt 1 "UPDATE counters SET n = n + 1" []; ERelease 1 None] |}.
Proof.
  eapply (deadlocked_S connect _ 1 start 0 (after 0) deadlock_err (after 1));
    [reflexivity | reflexivity | vm_compute; reflexivity | vm_compute; reflexivity |].
  eapply (deadlocked_S connect _ 0 _ 1 (after 1) deadlock_err (after 2));
    [reflexivity | reflexivity | vm_compute; reflexivity | vm_compute; reflexivity |].
  apply deadlocked_O.
Defined.

Lemma hopeless_deadlocks (c : client) (σ0 : env nat) :
  ∃ err σ1 t,
    hopeless c σ0 = (Throw (VRef err), σ1, t)
    ∧ flagged (objs σ1) err = false ∧ deadlock_code (objs σ1) err = true.
Proof.
  eexists _, _, _. split; [reflexivity|]. simpl.
  unfold flagged, deadlock_code, get_prop.
  rewrite lookup_insert_eq. split; reflexivity.
Defined.

(** Two deadlocks, then 42, with fuel for three attempts; and a work unit
    that deadlocks for ever. *)
Lemma withClient_retry_unbounded_witness :
  (∃ t',
     withClient connect 3 (flaky 2 deadlock_err (VNum 42)) start
     = (Done (Return (VNum 42)), {| wenv := after 3; trace := trace start ++ t' |})
     ∧ attempts t' ∧ acquires t' = 3 ∧ discards t' = 0)
  ∧ (∀ fuel w,
       (withClient connect fuel hopeless w).1 = OutOfFuel
       ∧ ∃ t', trace (withClient connect fuel hopeless w).2 = trace w ++ t'
               ∧ attempts t' ∧ acquires t' = fuel).
Proof.
  split.
  - apply (proj1 (withClient_retry_unbounded connect (flaky 2 deadlock_err (VNum 42)))
             2 3 start _ 2 (after 2) (VNum 42) (after 3) [("SELECT 1", [])]
             flaky_deadlocked); [reflexivity | reflexivity | lia].
  - apply (proj2 (withClient_retry_unbounded connect hopeless)).
    + intros σ. exists (store σ), σ. reflexivity.
    + apply hopeless_deadlocks.
Defined.

(** No row, one row, two rows, and three rows in the order of the store. *)
Lemma queryOne_queryMany_project_witness :
  let released sql :=
    {| wenv := after 0;
       trace := trace start ++ [EAcquire 0; EStmt 0 sql []; ERelease 0 None] |} in
  queryOne connect (scripted rows_script) "SELECT NO ROW" [] start
  = (Return VUndefined, released "SELECT NO ROW")
  ∧ queryOne connect (scripted rows_script) "SELECT 1 ROW" [] start
    = (Return (VStr "a"), released "SELECT 1 ROW")
  ∧ (∃ err,
       queryOne connect (scripted rows_script) "SELECT 2 ROWS" [] start
       = (Throw (VRef err),
          {| wenv := {| store := 0;
                        objs := <[err := {[ "name" := VStr "AssertionError";
                                            "message" := VStr "result.rows.length <= 1" ]}]>
                                  errors |};
             trace := trace (released "SELECT 2 ROWS") |})
       ∧ errors !! err = None)
  ∧ queryMany connect (scripted rows_script) "SELECT 3 ROWS" [] start
    = (Return [VStr "c"; VStr "a"; VStr "b"], released "SELECT 3 ROWS").
Proof.
  intros released. split; [|split; [|split]].
  - apply (proj1 (proj2 (queryOne_queryMany_project connect (scripted rows_script)
             "SELECT NO ROW" [] start 0 (after 0) {| rows := [] |} (after 0)
             eq_refl eq_refl))).
    reflexivity.
  - apply (proj1 (proj2 (proj2 (queryOne_queryMany_project connect (scripted rows_script)
             "SELECT 1 ROW" [] start 0 (after 0) {| rows := [VStr "a"] |} (after 0)
             eq_refl eq_refl)))).
    reflexivity.
  - apply (proj2 (proj2 (proj2 (queryOne_queryMany_project connect (scripted rows_script)
             "SELECT 2 ROWS" [] start 0 (after 0) {| rows := [VStr "a"; VStr "b"] |}
             (after 0) eq_refl eq_refl)))).
    simpl. lia.
  - apply (proj1 (queryOne_queryMany_project connect (scripted rows_script)
             "SELECT 3 ROWS" [] start 0 (after 0)
             {| rows := [VStr "c"; VStr "a"; VStr "b"] |} (after 0) eq_refl eq_refl)).
Defined.

(** A transaction whose work returns 42. *)
Lemma withTransaction_commits_witness :
  withTransaction connect (scripted []) 1 (flaky 0 deadlock_err (VNum 42)) start
  = (Done (Return (VNum 42)),
     {| wenv := after 1;
        trace := trace start ++ [EAcquire 0; EStmt 0 "BEGIN" []]
                   ++ map (stmt_event 0) [("SELECT 1", [])]
                   ++ [EStmt 0 "COMMIT" []; ERelease 0 None] |}).
Proof.
  apply (withTransaction_commits connect (scripted []) 0 (flaky 0 deadlock_err (VNum 42))
           start 0 (after 0) {| rows := [] |} (after 0) (VNum 42) (after 1) _
           {| rows := [] |} (after 1));
    reflexivity.
Defined.




End Runs.

(** * More of the file: edge behaviour and invariants *)

Section Coverage.

Context {St : Type}.
Variable pg_connect : env St → outcome client * env St.
Variable pg_query : client → string → list value → env St → outcome QResult * env St.
Variable isValidUuid : value → bool.
Variable hashPassword : value → env St → outcome value * env St.
Variable uuid_v4 : env St → value * env St.

(** ** No connection, and a statement the store refuses *)

(** When the pool has no client to give, nothing is run and nothing is
    released: [withClient] and [withTransaction] do not call the work
    unit, [query], [queryOne] and [queryMany] send no statement, and the
    caller gets the error of the pool. *)
Theorem no_connection_no_work {A} fuel (runner : client → CM St A) sql params w err σ0 :
  pg_connect (wenv w) = (Throw err, σ0) →
  let w' := {| wenv := σ0; trace := trace w |} in
  withClient pg_connect (S fuel) runner w = (Done (Throw err), w')
  ∧ withTransaction pg_connect pg_query (S fuel) runner w = (Done (Throw err), w')
  ∧ query pg_connect pg_query sql params w = (Throw err, w')
  ∧ queryOne pg_connect pg_query sql params w = (Throw err, w')
  ∧ queryMany pg_connect pg_query sql params w = (Throw err, w').
Proof.
  intros Hc w'.
  assert (query pg_connect pg_query sql params w = (Throw err, w')) as Hq.
  { unfold query, connectPromise. by rewrite Hc. }
  repeat split.
  - exact (withClient_no_connection _ _ _ _ _ _ Hc).
  - exact (withClient_no_connection _ _ _ _ _ _ Hc).
  - exact Hq.
  - unfold queryOne. by rewrite Hq.
  - unfold queryMany. by rewrite Hq.
Qed.

(** When the store refuses the statement, [query], [queryOne] and
    [queryMany] re-raise the store's error as it is, after the lease has
    been released; [queryOne] raises no assertion of its own. *)
Theorem query_store_error sql params w c σ0 err σ1 :
  pg_connect (wenv w) = (Return c, σ0) →
  pg_query c sql params σ0 = (Throw err, σ1) →
  let w' := {| wenv := σ1;
               trace := trace w ++ [EAcquire c; EStmt c sql params; ERelease c None] |} in
  query pg_connect pg_query sql params w = (Throw err, w')
  ∧ queryOne pg_connect pg_query sql params w = (Throw err, w')
  ∧ queryMany pg_connect pg_query sql params w = (Throw err, w').
Proof.
  intros Hc Hq w'.
  pose proof (query_returns _ _ _ _ _ _ _ _ _ Hc Hq) as Hquery. fold w' in Hquery.
  repeat split.
  - exact Hquery.
  - unfold queryOne. by rewrite Hquery.
  - unfold queryMany. by rewrite Hquery.
Qed.

(** ** What holds of [withClient] when failures have properties *)


(** A work unit that fails with anything but [undefined] or [null], with
    neither the pool flag nor the deadlock code (an error object with
    neither, or a thrown string, number or boolean): the lease is released
    with no discard, there is one attempt only, and what was thrown is
    re-raised as it is, with the heap as the work unit left it. *)
Theorem withClient_rethrows_ordinary_failure {A} fuel (runner : client → CM St A)
    w c σ0 err σ1 t :
  pg_connect (wenv w) = (Return c, σ0) →
  runner c σ0 = (Throw err, σ1, t) →
  is_nullish err = false →
  flag_of (objs σ1) err = false →
  code_is_deadlock (objs σ1) err = false →
  let attempt := EAcquire c :: map (stmt_event c) t ++ [ERelease c None] in
  withClient pg_connect (S fuel) runner w
  = (Done (Throw err), {| wenv := σ1; trace := trace w ++ attempt |})
  ∧ acquires attempt = 1 ∧ releases attempt = 1 ∧ discards attempt = 0.
Proof.
  intros Hc Hr Hn Hf Hd attempt. split; [|split; [|split]].
  - by rewrite (withClient_throws _ _ _ _ _ _ _ _ _ Hc Hr), Hn, Hf, Hd.
  - apply acquires_attempt.
  - apply releases_attempt.
  - unfold attempt.
    change (EAcquire c :: map (stmt_event c) t ++ [ERelease c None])
      with ([EAcquire c] ++ map (stmt_event c) t ++ [ERelease c None]).
    rewrite !discards_app, discards_stmts. reflexivity.
Qed.

(** ** Discards *)

Lemma discards_attempt c t d rest :
  discards (EAcquire c :: map (stmt_event c) t ++ ERelease c d :: rest)
  = match d with Some _ => 1 | None => 0 end + discards rest.
Proof.
  change (EAcquire c :: map (stmt_event c) t ++ ERelease c d :: rest)
    with ([EAcquire c] ++ map (stmt_event c) t ++ [ERelease c d] ++ rest).
  rewrite !discards_app, discards_stmts. by destruct d.
Qed.

(** One call of [withClient] discards at most one connection, and a
    discard is the last thing it does: it happens only when the call ends
    by re-raising an error, which then carries the explanation.  A call
    that returns a value, or that is still retrying, has discarded
    nothing. *)
Theorem withClient_discards_at_most_once {A} fuel (runner : client → CM St A) w :
  ∃ t,
    trace (withClient pg_connect fuel runner w).2 = trace w ++ t
    ∧ (discards t = 0
       ∨ ∃ err c t0,
           (withClient pg_connect fuel runner w).1 = Done (Throw (VRef err))
           ∧ t = t0 ++ [ERelease c (Some "Removing connection from pool")]
           ∧ discards t0 = 0
           ∧ get_prop (objs (wenv (withClient pg_connect fuel runner w).2)) err "human"
             = VStr "Could not remove from pool")
    ∧ (∀ v, (withClient pg_connect fuel runner w).1 = Done (Return v) → discards t = 0)
    ∧ ((withClient pg_connect fuel runner w).1 = OutOfFuel → discards t = 0).
Proof.
  revert w. induction fuel as [|fuel IH]; intros w.
  { exists []. simpl. rewrite app_nil_r. repeat split; auto. }
  destruct (pg_connect (wenv w)) as [[c|err] σ0] eqn:Hc.
  2:{ rewrite (withClient_no_connection _ _ _ _ _ _ Hc). exists []. simpl.
      rewrite app_nil_r. repeat split; auto. }
  assert (∀ t, discards (EAcquire c :: map (stmt_event c) t) = 0) as Hopen.
  { intros t.
    change (EAcquire c :: map (stmt_event c) t)
      with ([EAcquire c] ++ map (stmt_event c) t).
    rewrite discards_app, discards_stmts. reflexivity. }
  assert (∀ t, discards (EAcquire c :: map (stmt_event c) t ++ [ERelease c None]) = 0)
    as Hclosed by (intros t; apply (discards_attempt c t None [])).
  destruct (runner c σ0) as [[[v|err] σ1] t] eqn:Hr.
  { rewrite (withClient_returns _ _ _ _ _ _ _ _ _ Hc Hr). simpl.
    eexists. split; [done|]. repeat split; auto. }
  rewrite (withClient_throws _ _ _ _ _ _ _ _ _ Hc Hr).
  destruct (is_nullish err) eqn:Hn.
  { simpl. eexists. split; [done|]. repeat split; auto. }
  destruct (flag_of (objs σ1) err) eqn:Hf.
  { destruct (flag_of_object _ _ Hf) as (l & -> & _). simpl.
    eexists. split; [done|]. split; [|split; [done|done]].
    right. exists l, c, (EAcquire c :: map (stmt_event c) t).
    repeat split; [apply Hopen | apply get_set_prop_eq]. }
  destruct (code_is_deadlock (objs σ1) err) eqn:Hd.
  - set (w1 := {| wenv := σ1;
                  trace := trace w ++ EAcquire c :: map (stmt_event c) t
                             ++ [ERelease c None] |}).
    destruct (IH w1) as (t' & Ht' & Hcase & Hret & Hout).
    rewrite Ht'. simpl.
    exists ((EAcquire c :: map (stmt_event c) t ++ [ERelease c None]) ++ t').
    assert (∀ l, discards ((EAcquire c :: map (stmt_event c) t ++ [ERelease c None]) ++ l)
                 = discards l) as Hblock.
    { intros l. rewrite discards_app. by rewrite Hclosed. }
    split; [by rewrite <- app_assoc|]. split; [|split].
    + destruct Hcase as [Hz | (err' & c' & t0 & Hres & -> & Hz & Hh)].
      * left. by rewrite Hblock.
      * right.
        exists err', c', ((EAcquire c :: map (stmt_event c) t ++ [ERelease c None]) ++ t0).
        split; [done|]. split; [by rewrite <- app_assoc|]. split; [by rewrite Hblock|done].
    + intros v Hv. rewrite Hblock. by apply (Hret v).
    + intros Ho. rewrite Hblock. by apply Hout.
  - simpl. eexists. split; [done|]. repeat split; auto.
Qed.

(** ** The shape of a transaction *)

(** What the generator of [withTransaction] can end with: a value, after
    BEGIN, the work unit and COMMIT have all gone through; or an error,
    after ROLLBACK has been sent as the last statement. *)
Lemma transaction_shape {A} (runner : client → CM St A) c σ0 :
  match transaction pg_query runner c σ0 with
  | (Return v, σ3, t) =>
      ∃ rb σ1 σ2 t0 rc,
        pg_query c "BEGIN" [] σ0 = (Return rb, σ1)
        ∧ runner c σ1 = (Return v, σ2, t0)
        ∧ pg_query c "COMMIT" [] σ2 = (Return rc, σ3)
        ∧ t = ("BEGIN", []) :: t0 ++ [("COMMIT", [])]
  | (Throw err, σ3, t) => ∃ t0, t = ("BEGIN", []) :: t0 ++ [("ROLLBACK", [])]
  end.
Proof.
  unfold transaction, try_catch, bind, queryPromise, ret, throw, assign.
  destruct (pg_query c "BEGIN" [] σ0) as [[rb|err] σ1] eqn:Hb.
  - destruct (runner c σ1) as [[[v|err] σ2] t0] eqn:Hr.
    + destruct (pg_query c "COMMIT" [] σ2) as [[rc|err] σ3] eqn:Hcm.
      * simpl. exists rb, σ1, σ2, t0, rc. by rewrite ?app_nil_r.
      * destruct (pg_query c "ROLLBACK" [] σ3) as [[r|err2] σ4]; simpl;
          [|destruct (put (objs σ4) err2 "removeFromPool" (VBool true)); simpl];
          exists (t0 ++ [("COMMIT", [])]); by rewrite ?app_nil_r, <- ?app_assoc.
    + destruct (pg_query c "ROLLBACK" [] σ2) as [[r|err2] σ3]; simpl;
        [|destruct (put (objs σ3) err2 "removeFromPool" (VBool true)); simpl];
        exists t0; by rewrite ?app_nil_r.
  - destruct (pg_query c "ROLLBACK" [] σ1) as [[r|err2] σ2]; simpl;
      [|destruct (put (objs σ2) err2 "removeFromPool" (VBool true)); simpl];
      by exists [].
Qed.

Lemma tx_block c t0 closing d :
  EAcquire c :: map (stmt_event c) (("BEGIN", []) :: t0 ++ [(closing, [])]) ++ [ERelease c d]
  = EAcquire c :: EStmt c "BEGIN" [] :: map (stmt_event c) t0
      ++ EStmt c closing [] :: ERelease c d :: [].
Proof. simpl. rewrite map_app, <- app_assoc. reflexivity. Qed.

Lemma tx_attempts_app t1 t2 : tx_attempts t1 → tx_attempts t2 → tx_attempts (t1 ++ t2).
Proof.
  induction 1 as [|c t closing d rest Hcl _ IH]; intros H2; simpl; [done|].
  rewrite <- app_assoc. simpl. constructor; [done|]. by apply IH.
Qed.

Lemma tx_attempts_one c t0 closing d :
  closing = "COMMIT" ∨ closing = "ROLLBACK" →
  tx_attempts (EAcquire c :: map (stmt_event c) (("BEGIN", []) :: t0 ++ [(closing, [])])
                 ++ [ERelease c d]).
Proof.
  intros Hcl. rewrite tx_block. constructor; [done|constructor].
Qed.

(** When BEGIN is refused, the work unit is not run (the outcome is the
    same for every work unit), and ROLLBACK is sent all the same; the
    error that is thrown is BEGIN's, or ROLLBACK's with the pool flag set
    when ROLLBACK is refused too.  When what ROLLBACK throws is not an
    object, setting the flag throws a [TypeError], which is then the error
    thrown. *)
Theorem transaction_begin_refused {A} (runner : client → CM St A) c σ0 err σ1 :
  pg_query c "BEGIN" [] σ0 = (Throw err, σ1) →
  transaction pg_query runner c σ0
  = match pg_query c "ROLLBACK" [] σ1 with
    | (Return _, σ2) => (Throw err, σ2, [("BEGIN", []); ("ROLLBACK", [])])
    | (Throw (VRef err2), σ2) =>
        (Throw (VRef err2),
         {| store := store σ2;
            objs := set_prop (objs σ2) err2 "removeFromPool" (VBool true) |},
         [("BEGIN", []); ("ROLLBACK", [])])
    | (Throw _, σ2) =>
        (Throw (VRef (type_error (objs σ2)).1),
         {| store := store σ2; objs := (type_error (objs σ2)).2 |},
         [("BEGIN", []); ("ROLLBACK", [])])
    end.
Proof.
  intros Hb.
  destruct (pg_query c "ROLLBACK" [] σ1) as [[r|err2] σ2] eqn:Hrb.
  - exact (transaction_rolls_back _ _ _ _ _ _ _ _ _
             (fails_in_begin pg_query runner c σ0 err σ1 Hb) Hrb).
  - rewrite (transaction_rollback_fails _ _ _ _ _ _ _ _ _
               (fails_in_begin pg_query runner c σ0 err σ1 Hb) Hrb).
    by destruct err2.
Qed.

Lemma tx_open_block c t0 :
  EAcquire c :: map (stmt_event c) (("BEGIN", []) :: t0 ++ [("ROLLBACK", [])])
  = EAcquire c :: EStmt c "BEGIN" [] :: map (stmt_event c) t0 ++ [EStmt c "ROLLBACK" []].
Proof. simpl. by rewrite map_app. Qed.


(** [withTransaction] never hands out a value that was not committed:
    when it returns [v], the last attempt ran BEGIN, the work unit, which
    returned [v], and COMMIT, which the store accepted, and the lease was
    then released without discard. *)
Theorem withTransaction_value_is_committed {A} fuel (runner : client → CM St A) w v w' :
  withTransaction pg_connect pg_query fuel runner w = (Done (Return v), w') →
  ∃ t c σ1 σ2 t0 rc,
    trace w' = trace w ++ t
                 ++ EAcquire c :: EStmt c "BEGIN" [] :: map (stmt_event c) t0
                 ++ [EStmt c "COMMIT" []; ERelease c None]
    ∧ tx_attempts t
    ∧ runner c σ1 = (Return v, σ2, t0)
    ∧ pg_query c "COMMIT" [] σ2 = (Return rc, wenv w').
Proof.
  unfold withTransaction. revert w. induction fuel as [|fuel IH]; intros w H.
  { discriminate. }
  destruct (pg_connect (wenv w)) as [[c|err] σ0] eqn:Hc.
  2:{ rewrite (withClient_no_connection _ _ _ _ _ _ Hc) in H. discriminate. }
  pose proof (transaction_shape runner c σ0) as Hs.
  destruct (transaction pg_query runner c σ0) as [[[v0|err] σ1] t] eqn:Hr.
  { destruct Hs as (rb & σb & σw & t0 & rc & Hb & Hw & Hcm & ->).
    rewrite (withClient_returns _ _ _ _ _ _ _ _ _ Hc Hr) in H.
    injection H as -> <-. simpl.
    exists [], c, σb, σw, t0, rc. simpl.
    split; [|split; [constructor|done]].
    f_equal. exact (tx_block c t0 "COMMIT" None). }
  destruct Hs as (t0 & ->).
  rewrite (withClient_throws _ _ _ _ _ _ _ _ _ Hc Hr) in H.
  destruct (is_nullish err); [discriminate|].
  destruct (flag_of (objs σ1) err); [discriminate|].
  destruct (code_is_deadlock (objs σ1) err); [|discriminate].
  destruct (IH _ H) as (t' & c' & σa & σb & t1 & rc & Ht' & Ha & Hw & Hcm).
  simpl in Ht'.
  exists ((EAcquire c :: map (stmt_event c) (("BEGIN", []) :: t0 ++ [("ROLLBACK", [])])
             ++ [ERelease c None]) ++ t'), c', σa, σb, t1, rc.
  split; [by rewrite Ht', <- !app_assoc|].
  split; [|done].
  apply tx_attempts_app; [|done].
  apply (tx_attempts_one c t0 "ROLLBACK"). by right.
Qed.

(** A transaction that runs into a deadlock once is run again as a whole:
    after ROLLBACK the first lease is released without discard, and on the
    second lease BEGIN is sent again before the work unit runs and COMMIT
    after it.  The flag and the code of the error are read as ROLLBACK
    has left the heap. *)
Theorem withTransaction_deadlock_then_commit {A} fuel (runner : client → CM St A)
    w c1 σ0 rb1 σb err σ1 t1 rr σ2 c2 σ3 rb2 σ4 v σ5 t2 rc σ6 :
  pg_connect (wenv w) = (Return c1, σ0) →
  pg_query c1 "BEGIN" [] σ0 = (Return rb1, σb) →
  runner c1 σb = (Throw (VRef err), σ1, t1) →
  pg_query c1 "ROLLBACK" [] σ1 = (Return rr, σ2) →
  flagged (objs σ2) err = false →
  deadlock_code (objs σ2) err = true →
  pg_connect σ2 = (Return c2, σ3) →
  pg_query c2 "BEGIN" [] σ3 = (Return rb2, σ4) →
  runner c2 σ4 = (Return v, σ5, t2) →
  pg_query c2 "COMMIT" [] σ5 = (Return rc, σ6) →
  withTransaction pg_connect pg_query (S (S fuel)) runner w
  = (Done (Return v),
     {| wenv := σ6;
        trace := trace w
                   ++ (EAcquire c1 :: EStmt c1 "BEGIN" [] :: map (stmt_event c1) t1
                         ++ [EStmt c1 "ROLLBACK" []; ERelease c1 None])
                   ++ (EAcquire c2 :: EStmt c2 "BEGIN" [] :: map (stmt_event c2) t2
                         ++ [EStmt c2 "COMMIT" []; ERelease c2 None]) |}).
Proof.
  intros Hc1 Hb1 Hr1 Hrb Hf Hd Hc2 Hb2 Hr2 Hcm. unfold withTransaction.
  pose proof (transaction_rolls_back pg_query runner c1 σ0 (VRef err) σ1 _ rr σ2
                (fails_in_work pg_query runner c1 σ0 rb1 σb (VRef err) σ1 t1 Hb1 Hr1) Hrb) as Htx1.
  pose proof (transaction_commits pg_query runner c2 σ3 rb2 σ4 v σ5 t2 rc σ6
                Hb2 Hr2 Hcm) as Htx2.
  rewrite (withClient_retries _ _ _ _ _ _ _ _ _ Hc1 Htx1 Hf Hd).
  erewrite withClient_returns; [|exact Hc2|exact Htx2]. simpl.
  rewrite <- app_assoc. do 3 f_equal. simpl.
  rewrite !map_app. simpl. rewrite <- !app_assoc. reflexivity.
Qed.

(** ** Arguments are checked before anything is sent *)

Ltac refuse f :=
  unfold rejected, f, and_then, assert;
  repeat match goal with
         | |- context [if ?c then _ else _] => destruct c
         end;
  let H := fresh "H" in
  intros H; simpl in H; try discriminate H;
  eexists _, _; (split; [reflexivity | exact (alloc_fresh _ ∅)]).

(** An argument that fails an assertion of a custom query is refused
    before the pool is asked for a client: the call throws a new
    [AssertionError], no lease is taken, no statement is sent, and the
    store is as it was. *)
Theorem invalid_argument_rejected (w : world St) :
  (∀ sessionId, isValidUuid sessionId = false →
     rejected (getUserBySessionId pg_connect pg_query isValidUuid sessionId) w)
  ∧ (∀ uname, isString uname = false →
       rejected (getUserByUname pg_connect pg_query uname) w)
  ∧ (∀ userId, isInteger userId = false →
       rejected (getRecentMessagesForUserId pg_connect pg_query userId) w)
  ∧ (∀ userId sessionId, isInteger userId && isString sessionId = false →
       rejected (logoutSession pg_connect pg_query userId sessionId) w)
  ∧ (∀ messageId, truthy messageId = false →
       rejected (hideMessage pg_connect pg_query messageId) w)
  ∧ (∀ messageId, truthy messageId = false →
       rejected (getMessageById pg_connect pg_query messageId) w)
  ∧ (∀ userId data, isInteger userId = false →
       rejected (updateUser pg_connect pg_query userId data) w)
  ∧ (∀ userId role, isInteger userId && isString role = false →
       rejected (updateUserRole pg_connect pg_query userId role) w).
Proof.
  repeat split; intros *.
  - refuse @getUserBySessionId.
  - refuse @getUserByUname.
  - refuse @getRecentMessagesForUserId.
  - refuse @logoutSession.
  - refuse @hideMessage.
  - refuse @getMessageById.
  - refuse @updateUser.
  - refuse @updateUserRole.
Qed.

(** A [data] object that fails an assertion of [insertMessage],
    [insertUser], [insertSession] or [updateMessage] is refused in the
    same way; for [insertUser] the password has not been hashed and for
    [insertSession] no identifier has been drawn. *)
Theorem invalid_data_rejected (w : world St) (data : loc) :
  (insertMessage_valid (objs (wenv w)) data = false →
     rejected (insertMessage pg_connect pg_query data) w)
  ∧ (insertUser_valid (objs (wenv w)) data = false →
       rejected (insertUser pg_connect pg_query hashPassword data) w)
  ∧ (insertSession_valid (objs (wenv w)) data = false →
       rejected (insertSession pg_connect pg_query uuid_v4 data) w)
  ∧ (∀ messageId, updateMessage_valid (objs (wenv w)) messageId data = false →
       rejected (updateMessage pg_connect pg_query messageId data) w).
Proof.
  repeat split; intros *.
  - unfold insertMessage_valid. refuse @insertMessage.
  - unfold insertUser_valid. refuse @insertUser.
  - unfold insertSession_valid. refuse @insertSession.
  - unfold updateMessage_valid. refuse @updateMessage.
Qed.

(** ** One lease for each call *)

Lemma single_lease_query sql params : single_lease (query pg_connect pg_query sql params).
Proof.
  intros w. unfold query, connectPromise.
  destruct (pg_connect (wenv w)) as [[c|err] σ0]; simpl.
  - unfold run, queryPromise. simpl.
    destruct (pg_query c sql params σ0) as [r σ1]. simpl.
    exists (EAcquire c :: map (stmt_event c) [(sql, params)] ++ [ERelease c None]).
    split; [by rewrite <- !app_assoc|]. split; [apply attempts_one|].
    by rewrite acquires_attempt.
  - exists []. rewrite app_nil_r.
    split; [reflexivity | split; [constructor | unfold acquires; simpl; lia]].
Qed.

Lemma queryOne_trace sql params (w : world St) :
  trace (queryOne pg_connect pg_query sql params w).2
  = trace (query pg_connect pg_query sql params w).2.
Proof.
  unfold queryOne. destruct (query pg_connect pg_query sql params w) as [[r|err] w1]; [|done].
  unfold assert. by destruct (length (rows r) <=? 1).
Qed.

Lemma queryMany_trace sql params (w : world St) :
  trace (queryMany pg_connect pg_query sql params w).2
  = trace (query pg_connect pg_query sql params w).2.
Proof.
  unfold queryMany. by destruct (query pg_connect pg_query sql params w) as [[r|err] w1].
Qed.

Lemma single_lease_queryOne sql params :
  single_lease (queryOne pg_connect pg_query sql params).
Proof. intros w. rewrite queryOne_trace. apply single_lease_query. Qed.

Lemma single_lease_queryMany sql params :
  single_lease (queryMany pg_connect pg_query sql params).
Proof. intros w. rewrite queryMany_trace. apply single_lease_query. Qed.

Ltac quiet :=
  exists []; unfold alloc; simpl; rewrite app_nil_r;
  split; [reflexivity | split; [constructor | unfold acquires; simpl; lia]].

Ltac leases f :=
  unfold single_lease; intros w; unfold f, and_then, assert;
  repeat match goal with
         | |- context [if ?c then _ else _] => destruct c
         end;
  cbv beta iota zeta;
  first [ exact (single_lease_query _ _ w) | exact (single_lease_queryOne _ _ w)
        | exact (single_lease_queryMany _ _ w) | quiet ].

(** Every exported function leases at most one client and has ended the
    lease when it returns or throws, whatever its arguments and whatever
    the store answers: a failed assertion on the arguments or on the
    number of rows, a rejected password hash or a refused statement leave
    no lease open. *)
Theorem exported_functions_single_lease :
  (∀ sql params, single_lease (query pg_connect pg_query sql params))
  ∧ (∀ sessionId,
       single_lease (getUserBySessionId pg_connect pg_query isValidUuid sessionId))
  ∧ (∀ uname, single_lease (getUserByUname pg_connect pg_query uname))
  ∧ single_lease (getRecentMessages pg_connect pg_query)
  ∧ (∀ userId, single_lease (getRecentMessagesForUserId pg_connect pg_query userId))
  ∧ (∀ data, single_lease (insertMessage pg_connect pg_query data))
  ∧ (∀ data, single_lease (insertUser pg_connect pg_query hashPassword data))
  ∧ (∀ data, single_lease (insertSession pg_connect pg_query uuid_v4 data))
  ∧ (∀ userId sessionId, single_lease (logoutSession pg_connect pg_query userId sessionId))
  ∧ (∀ messageId, single_lease (hideMessage pg_connect pg_query messageId))
  ∧ (∀ messageId, single_lease (getMessageById pg_connect pg_query messageId))
  ∧ (∀ userId data, single_lease (updateUser pg_connect pg_query userId data))
  ∧ (∀ userId role, single_lease (updateUserRole pg_connect pg_query userId role))
  ∧ (∀ messageId data, single_lease (updateMessage pg_connect pg_query messageId data))
  ∧ single_lease (getMessages pg_connect pg_query)
  ∧ single_lease (getUsers pg_connect pg_query)
  ∧ single_lease (getStats pg_connect pg_query).
Proof.
  repeat split; intros *.
  - apply single_lease_query.
  - leases @getUserBySessionId.
  - leases @getUserByUname.
  - apply single_lease_queryMany.
  - leases @getRecentMessagesForUserId.
  - leases @insertMessage.
  - intros w. unfold insertUser, and_then, assert, lift_env.
    repeat match goal with
           | |- context [if ?c then _ else _] => destruct c
           end; cbv beta iota zeta; try quiet.
    destruct (hashPassword _ (wenv w)) as [[digest|err] σ]; [|quiet].
    exact (single_lease_queryOne _ _ {| wenv := σ; trace := trace w |}).
  - intros w. unfold insertSession, and_then, assert.
    repeat match goal with
           | |- context [if ?c then _ else _] => destruct c
           end; cbv beta iota zeta; try quiet.
    destruct (uuid_v4 (wenv w)) as [id σ].
    exact (single_lease_queryOne _ _ {| wenv := σ; trace := trace w |}).
  - leases @logoutSession.
  - leases @hideMessage.
  - leases @getMessageById.
  - leases @updateUser.
  - leases @updateUserRole.
  - leases @updateMessage.
  - apply single_lease_queryMany.
  - apply single_lease_queryMany.
  - apply single_lease_queryOne.
Qed.

(** ** [insertUser] and the client helpers *)

(** [insertUser] hashes the password before it asks the pool for a
    client.  When the hash is rejected, that error is re-raised with no
    lease taken and no statement sent.  When it is computed, [insertUser]
    is [queryOne] of its statement with the name and the address, read
    after the hash was awaited, and the digest as parameters. *)
Theorem insertUser_hashes_before_leasing data (w : world St) :
  insertUser_valid (objs (wenv w)) data = true →
  match hashPassword (get_prop (objs (wenv w)) data "password") (wenv w) with
  | (Throw err, σ) =>
      insertUser pg_connect pg_query hashPassword data w
      = (Throw err, {| wenv := σ; trace := trace w |})
  | (Return digest, σ) =>
      insertUser pg_connect pg_query hashPassword data w
      = queryOne pg_connect pg_query insertUser_sql
          [get_prop (objs σ) data "uname"; get_prop (objs σ) data "email"; digest]
          {| wenv := σ; trace := trace w |}
  end.
Proof.
  unfold insertUser_valid. intros Hv.
  apply andb_prop in Hv as [Hv Hp]. apply andb_prop in Hv as [Hu He].
  unfold insertUser, and_then, assert, lift_env. rewrite Hu, He, Hp.
  by destruct (hashPassword _ (wenv w)) as [[digest|err] σ].
Qed.

(** The helpers on the client take what the store answers as it is:
    [queryOnePromise] gives the first row (or [undefined]) however many
    rows there are, and [queryManyPromise] gives the rows.  On an answer
    with two rows or more, where [queryOnePromise] gives the first row,
    [queryOne] throws. *)
Theorem queryOnePromise_takes_first_row c sql params σ0 result σ1 :
  pg_query c sql params σ0 = (Return result, σ1) →
  queryOnePromise pg_query c sql params σ0
  = (Return (nth 0 (rows result) VUndefined), σ1, [(sql, params)])
  ∧ queryManyPromise pg_query c sql params σ0
    = (Return (rows result), σ1, [(sql, params)])
  ∧ ∀ w, pg_connect (wenv w) = (Return c, σ0) →
         2 ≤ length (rows result) →
         ∃ err, (queryOne pg_connect pg_query sql params w).1 = Throw err.
Proof.
  intros Hq. split; [|split].
  - unfold queryOnePromise, bind, queryPromise, ret. by rewrite Hq.
  - unfold queryManyPromise, bind, queryPromise, ret. by rewrite Hq.
  - intros w Hc Hlen. unfold queryOne.
    rewrite (query_returns _ _ _ _ _ _ _ _ _ Hc Hq). unfold assert.
    destruct (length (rows result) <=? 1) eqn:Hle.
    { apply Nat.leb_le in Hle. lia. }
    unfold alloc. simpl. by eexists.
Qed.

End Coverage.

(** * The further properties on a concrete store *)

Module MoreRuns.
Import Demo Demo2.

(** A pool with no client: nothing runs, the pool's error comes back. *)
Lemma no_connection_no_work_witness :
  let w' := {| wenv := after 0; trace := trace start |} in
  withClient no_pool 1 (flaky 0 deadlock_err (VNum 42)) start = (Done (Throw (VRef lost_err)), w')
  ∧ withTransaction no_pool (scripted []) 1 (flaky 0 deadlock_err (VNum 42)) start
    = (Done (Throw (VRef lost_err)), w')
  ∧ query no_pool (scripted []) "SELECT 1" [] start = (Throw (VRef lost_err), w')
  ∧ queryOne no_pool (scripted []) "SELECT 1" [] start = (Throw (VRef lost_err), w')
  ∧ queryMany no_pool (scripted []) "SELECT 1" [] start = (Throw (VRef lost_err), w').
Proof.
  exact (no_connection_no_work no_pool (scripted []) 0 (flaky 0 deadlock_err (VNum 42))
           "SELECT 1" [] start (VRef lost_err) (after 0) eq_refl).
Defined.

(** A statement that violates a constraint. *)
Lemma query_store_error_witness :
  let store := scripted [("INSERT", Throw (VRef unique_err))] in
  let w' := {| wenv := after 0;
               trace := trace start ++ [EAcquire 0; EStmt 0 "INSERT" []; ERelease 0 None] |} in
  query connect store "INSERT" [] start = (Throw (VRef unique_err), w')
  ∧ queryOne connect store "INSERT" [] start = (Throw (VRef unique_err), w')
  ∧ queryMany connect store "INSERT" [] start = (Throw (VRef unique_err), w').
Proof.
  exact (query_store_error connect (scripted [("INSERT", Throw (VRef unique_err))])
           "INSERT" [] start 0 (after 0) (VRef unique_err) (after 0) eq_refl eq_refl).
Defined.

(** BEGIN refused on a lost connection, ROLLBACK accepted. *)
Lemma transaction_begin_refused_witness :
  transaction (scripted [("BEGIN", Throw (VRef lost_err))]) (flaky 0 deadlock_err (VNum 42))
    0 (after 0)
  = (Throw (VRef lost_err), after 0, [("BEGIN", []); ("ROLLBACK", [])]).
Proof.
  exact (transaction_begin_refused (scripted [("BEGIN", Throw (VRef lost_err))])
           (flaky 0 deadlock_err (VNum 42)) 0 (after 0) (VRef lost_err) (after 0) eq_refl).
Defined.

(** The value 42 of a transaction that was retried once. *)
Lemma withTransaction_value_is_committed_witness :
  let w' := (withTransaction connect (scripted []) 2
               (flaky 1 deadlock_err (VNum 42)) start).2 in
  ∃ t c σ1 σ2 t0 rc,
    trace w' = trace start ++ t
                 ++ EAcquire c :: EStmt c "BEGIN" [] :: map (stmt_event c) t0
                 ++ [EStmt c "COMMIT" []; ERelease c None]
    ∧ tx_attempts t
    ∧ flaky 1 deadlock_err (VNum 42) c σ1 = (Return (VNum 42), σ2, t0)
    ∧ scripted [] c "COMMIT" [] σ2 = (Return rc, wenv w').
Proof.
  apply (withTransaction_value_is_committed connect (scripted []) 2
           (flaky 1 deadlock_err (VNum 42)) start (VNum 42)).
  vm_compute. reflexivity.
Defined.

(** One deadlock inside a transaction, then a commit. *)
Lemma withTransaction_deadlock_then_commit_witness :
  withTransaction connect (scripted []) 2 (flaky 1 deadlock_err (VNum 42)) start
  = (Done (Return (VNum 42)),
     {| wenv := after 2;
        trace := trace start
                   ++ (EAcquire 0 :: EStmt 0 "BEGIN" []
                         :: map (stmt_event 0) [("UPDATE counters SET n = n + 1", [])]
                         ++ [EStmt 0 "ROLLBACK" []; ERelease 0 None])
                   ++ (EAcquire 1 :: EStmt 1 "BEGIN" []
                         :: map (stmt_event 1) [("SELECT 1", [])]
                         ++ [EStmt 1 "COMMIT" []; ERelease 1 None]) |}).
Proof.
  apply (withTransaction_deadlock_then_commit connect (scripted []) 0
           (flaky 1 deadlock_err (VNum 42)) start
           0 (after 0) {| rows := [] |} (after 0) deadlock_err (after 1) _
           {| rows := [] |} (after 1) 1 (after 1) {| rows := [] |} (after 1)
           (VNum 42) (after 2) _ {| rows := [] |} (after 2));
    vm_compute; reflexivity.
Defined.

(** Arguments of the wrong kind, one for each function. *)
Lemma invalid_argument_rejected_witness :
  rejected (getUserBySessionId connect (scripted []) valid_uuid (VStr "not a uuid")) start
  ∧ rejected (getUserByUname connect (scripted []) (VNum 7)) start
  ∧ rejected (getRecentMessagesForUserId connect (scripted []) (VStr "7")) start
  ∧ rejected (logoutSession connect (scripted []) (VNum 7) VUndefined) start
  ∧ rejected (hideMessage connect (scripted []) (VNum 0)) start
  ∧ rejected (getMessageById connect (scripted []) VUndefined) start
  ∧ rejected (updateUser connect (scripted []) VNull form) start
  ∧ rejected (updateUserRole connect (scripted []) (VNum 7) (VBool true)) start.
Proof.
  destruct (invalid_argument_rejected connect (scripted []) valid_uuid start)
    as (H1 & H2 & H3 & H4 & H5 & H6 & H7 & H8).
  repeat split.
  - apply H1. reflexivity.
  - apply H2. reflexivity.
  - apply H3. reflexivity.
  - apply H4. reflexivity.
  - apply H5. reflexivity.
  - apply H6. reflexivity.
  - apply H7. reflexivity.
  - apply H8. reflexivity.
Defined.

(** A form whose name is a number and that has no markup, address or
    interval. *)
Lemma invalid_data_rejected_witness :
  rejected (insertMessage connect (scripted []) bad_form) desk
  ∧ rejected (insertUser connect (scripted []) hash bad_form) desk
  ∧ rejected (insertSession connect (scripted []) next_uuid bad_form) desk
  ∧ rejected (updateMessage connect (scripted []) (VStr "7") bad_form) desk.
Proof.
  destruct (invalid_data_rejected connect (scripted []) hash next_uuid desk bad_form)
    as (H1 & H2 & H3 & H4).
  repeat split.
  - apply H1. vm_compute. reflexivity.
  - apply H2. vm_compute. reflexivity.
  - apply H3. vm_compute. reflexivity.
  - apply H4. vm_compute. reflexivity.
Defined.

(** A sign-up whose password is hashed, and one whose hash is rejected. *)
Lemma insertUser_hashes_before_leasing_witness :
  insertUser connect (scripted []) hash form desk
  = queryOne connect (scripted []) insertUser_sql
      [VStr "ann"; VUndefined; VStr "digest of secret"] desk
  ∧ insertUser connect (scripted []) no_hash form desk = (Throw (VRef lost_err), desk).
Proof.
  split.
  - exact (insertUser_hashes_before_leasing connect (scripted []) hash form desk eq_refl).
  - exact (insertUser_hashes_before_leasing connect (scripted []) no_hash form desk eq_refl).
Defined.

(** Two rows: the helper on the client gives the first, [queryOne] throws. *)
Lemma queryOnePromise_takes_first_row_witness :
  queryOnePromise (scripted rows_script) 0 "SELECT 2 ROWS" [] (after 0)
  = (Return (VStr "a"), after 0, [("SELECT 2 ROWS", [])])
  ∧ queryManyPromise (scripted rows_script) 0 "SELECT 2 ROWS" [] (after 0)
    = (Return [VStr "a"; VStr "b"], after 0, [("SELECT 2 ROWS", [])])
  ∧ ∃ err, (queryOne connect (scripted rows_script) "SELECT 2 ROWS" [] start).1 = Throw err.
Proof.
  destruct (queryOnePromise_takes_first_row connect (scripted rows_script)
              0 "SELECT 2 ROWS" [] (after 0) {| rows := [VStr "a"; VStr "b"] |} (after 0)
              eq_refl) as (H1 & H2 & H3).
  split; [exact H1|]. split; [exact H2|].
  apply (H3 start); [reflexivity | simpl; lia].
Defined.



(** A constraint violation, and a thrown string: released, not retried,
    re-raised as they are. *)
Lemma withClient_rethrows_ordinary_failure_witness :
  (let attempt := EAcquire 0
                    :: map (stmt_event 0) [("UPDATE counters SET n = n + 1", [])]
                    ++ [ERelease 0 None] in
   withClient connect 5 (flaky 1 unique_err (VNum 42)) start
   = (Done (Throw (VRef unique_err)), {| wenv := after 1; trace := trace start ++ attempt |})
   ∧ acquires attempt = 1 ∧ releases attempt = 1 ∧ discards attempt = 0)
  ∧ (let attempt := EAcquire 0 :: map (stmt_event 0) [("SELECT 1", [])]
                      ++ [ERelease 0 None] in
     withClient connect 5 (thrower (VStr "oops")) start
     = (Done (Throw (VStr "oops")), {| wenv := after 1; trace := trace start ++ attempt |})
     ∧ acquires attempt = 1 ∧ releases attempt = 1 ∧ discards attempt = 0).
Proof.
  split.
  - apply (withClient_rethrows_ordinary_failure connect 4 (flaky 1 unique_err (VNum 42))
             start 0 (after 0) (VRef unique_err) (after 1) _);
      vm_compute; reflexivity.
  - apply (withClient_rethrows_ordinary_failure connect 4 (thrower (VStr "oops"))
             start 0 (after 0) (VStr "oops") (after 1) _);
      vm_compute; reflexivity.
Defined.

End MoreRuns.
